(** * AAA: the step/task polling engine

    A shallow embedding of the orchestration core of the AAA package
    (AAA/helper_functions.py, AAA/Run_Job.py, AAA/Execute_Script.py and
    AAA/task_class.py) together with the properties of its natural-language
    specification.

    Conventions of the embedding.
    - Python [str] is [string], a text being held as its UTF-8 encoding:
      the tests of the code against ASCII characters (space, tabulation,
      newline, quote, parenthesis) are tests on bytes, and [str.isdigit]
      is a test on the characters, decimal digits or other digits of
      Unicode.
    - A Python value that may be [None] is an [option].
    - Code that can raise is written in a state-and-exception monad: a
      computation maps a state to an outcome ([Val] or [Raise]) and to the
      state reached when it returned or raised.
    - Every file name is resolved in the task's working directory (the
      [os.getcwd()] / [sub_folder] joins of the source); the file system of
      the model is the content of that directory, and a sub folder, when
      one is given, names an existing directory. A file of it holds text
      or bytes that do not read as text.
    - The status sink, the files opened for writing and the processes
      started are recorded in the world, next to the file system. The
      sink is a log file reopened under its relative name at every write:
      the world keeps what is written to it apart from the file system,
      telling the lines written from the initial directory from those
      written from inside the sub folder, which land in another file. The
      log is taken to be writable, and to be none of the files that the
      engine tests, reads or removes.
    - What lies outside the program is a parameter: the behaviour of the
      processes it starts, [os.path.splitext], the callables of Python
      steps (which act on the world, not on the task that runs them). *)

From Stdlib Require Import String Ascii List ZArith Lia Bool.
From stdpp Require Import base option list strings gmap pretty.

(* ------------------------------------------------------------------ *)
(** ** Outcomes of Python code *)

Inductive exn : Type :=
| IndexError
| TypeError
| FileNotFoundError
| IsADirectoryError
| NotADirectoryError
| UnicodeDecodeError
| Exception (msg : string).

Inductive result (A : Type) : Type :=
| Val (a : A)
| Raise (e : exn).
Arguments Val {A} a.
Arguments Raise {A} e.

(** State-and-exception monad over a state [S]. *)
Definition M (S A : Type) : Type := S -> result A * S.

Definition ret {S A} (a : A) : M S A := fun s => (Val a, s).
Definition raise {S A} (e : exn) : M S A := fun s => (Raise e, s).
Definition bind {S A B} (m : M S A) (f : A -> M S B) : M S B :=
  fun s => match m s with
           | (Val a, s1) => f a s1
           | (Raise e, s1) => (Raise e, s1)
           end.
Definition modify {S} (f : S -> S) : M S unit := fun s => (Val tt, f s).
(** [try: m except E: h] for the exceptions [E] selected by [catches]. *)
Definition try_catch {S} (catches : exn -> bool) (m : M S unit) (h : M S unit)
  : M S unit :=
  fun s => match m s with
           | (Val a, s1) => (Val a, s1)
           | (Raise e, s1) => if catches e then h s1 else (Raise e, s1)
           end.
(** A pure computation that may raise, run inside the monad. *)
Definition of_result {S A} (r : result A) : M S A := fun s => (r, s).
(** A value that must not be [None] where it is used as a [str]. *)
Definition not_none {S A} (o : option A) : M S A :=
  match o with Some a => ret a | None => raise TypeError end.
(** [for x in l: body x]. *)
Fixpoint for_each {S A} (l : list A) (body : A -> M S unit) : M S unit :=
  match l with
  | [] => ret tt
  | x :: l' => bind (body x) (fun _ => for_each l' body)
  end.

Declare Scope py_scope.
Delimit Scope py_scope with py.
Notation "'let*' x ':=' m 'in' k" := (bind m (fun x => k))
  (at level 10, x name, m at level 100, k at level 200,
   format "'[v' 'let*'  x  ':='  m  'in' '/' k ']'") : py_scope.
Notation "m ';;;' k" := (bind m (fun _ => k))
  (at level 100, k at level 200, right associativity,
   format "'[v' m  ';;;' '/' k ']'") : py_scope.

(* ------------------------------------------------------------------ *)
(** ** String helpers of the Python runtime *)

Definition space : ascii := " "%char.
Definition newline : ascii := "010"%char.

(** The ASCII decimal digits ['0'..'9']. *)
Definition isdigit (c : ascii) : bool :=
  match Ascii.is_nat c with Some _ => true | None => false end.

(** A text is held as its UTF-8 encoding. A character of the text is a
    lead byte followed by its continuation bytes, those of the form
    [10xxxxxx]. *)
Definition is_continuation (b : ascii) : bool :=
  (128 <=? N_of_ascii b)%N && (N_of_ascii b <? 192)%N.

(** The characters of a text, as [for c in s] visits them; [current] is
    the character being read. *)
Fixpoint chars_loop (s : string) (current : string) : list string :=
  match s with
  | EmptyString => [current]
  | String b s' =>
      if is_continuation b
      then chars_loop s' (current +:+ String b EmptyString)
      else current :: chars_loop s' (String b EmptyString)
  end.

Definition chars (s : string) : list string :=
  match s with
  | EmptyString => []
  | String b s' => chars_loop s' (String b EmptyString)
  end.

(** The code point of a character, for the byte sequences that the UTF-8
    codec of Python accepts: shortest form, no surrogate, at most
    [U+10FFFF]. *)
Definition code_point (c : string) : option N :=
  let cont (b : ascii) : N := (N_of_ascii b - 128)%N in
  match c with
  | String b0 EmptyString =>
      if (N_of_ascii b0 <? 128)%N then Some (N_of_ascii b0) else None
  | String b0 (String b1 EmptyString) =>
      if (192 <=? N_of_ascii b0)%N && (N_of_ascii b0 <? 224)%N
         && is_continuation b1
      then let n := ((N_of_ascii b0 - 192) * 64 + cont b1)%N in
           if (128 <=? n)%N then Some n else None
      else None
  | String b0 (String b1 (String b2 EmptyString)) =>
      if (224 <=? N_of_ascii b0)%N && (N_of_ascii b0 <? 240)%N
         && is_continuation b1 && is_continuation b2
      then let n := ((N_of_ascii b0 - 224) * 4096 + cont b1 * 64
                     + cont b2)%N in
           if (2048 <=? n)%N && negb ((55296 <=? n)%N && (n <? 57344)%N)
           then Some n else None
      else None
  | String b0 (String b1 (String b2 (String b3 EmptyString))) =>
      if (240 <=? N_of_ascii b0)%N && (N_of_ascii b0 <? 248)%N
         && is_continuation b1 && is_continuation b2 && is_continuation b3
      then let n := ((N_of_ascii b0 - 240) * 262144 + cont b1 * 4096
                     + cont b2 * 64 + cont b3)%N in
           if (65536 <=? n)%N && (n <? 1114112)%N then Some n else None
      else None
  | _ => None
  end.

(** The code points on which [str.isdigit] holds, as ranges: the
    characters of numeric type Decimal or Digit of the Unicode database
    (version 14.0, the one of CPython 3.11). Besides the decimal digits of
    the scripts they hold the superscript, subscript and circled digits. *)
Definition unicode_digits : list (N * N) :=
  [(48, 57); (178, 179); (185, 185); (1632, 1641); (1776, 1785);
   (1984, 1993); (2406, 2415); (2534, 2543); (2662, 2671); (2790, 2799);
   (2918, 2927); (3046, 3055); (3174, 3183); (3302, 3311); (3430, 3439);
   (3558, 3567); (3664, 3673); (3792, 3801); (3872, 3881); (4160, 4169);
   (4240, 4249); (4969, 4977); (6112, 6121); (6160, 6169); (6470, 6479);
   (6608, 6618); (6784, 6793); (6800, 6809); (6992, 7001); (7088, 7097);
   (7232, 7241); (7248, 7257); (8304, 8304); (8308, 8313); (8320, 8329);
   (9312, 9320); (9332, 9340); (9352, 9360); (9450, 9450); (9461, 9469);
   (9471, 9471); (10102, 10110); (10112, 10120); (10122, 10130);
   (42528, 42537); (43216, 43225); (43264, 43273); (43472, 43481);
   (43504, 43513); (43600, 43609); (44016, 44025); (65296, 65305);
   (66720, 66729); (68160, 68163); (68912, 68921); (69216, 69224);
   (69714, 69722); (69734, 69743); (69872, 69881); (69942, 69951);
   (70096, 70105); (70384, 70393); (70736, 70745); (70864, 70873);
   (71248, 71257); (71360, 71369); (71472, 71481); (71904, 71913);
   (72016, 72025); (72784, 72793); (73040, 73049); (73120, 73129);
   (92768, 92777); (92864, 92873); (93008, 93017); (120782, 120831);
   (123200, 123209); (123632, 123641); (125264, 125273); (127232, 127242);
   (130032, 130041)]%N.

(** The text made of the characters [cs]. *)
Definition text_of (cs : list string) : string :=
  foldr String.append EmptyString cs.

(** [c.isdigit()] for a character [c]. *)
Definition str_isdigit (c : string) : bool :=
  match code_point c with
  | Some n => existsb (fun r => (r.1 <=? n)%N && (n <=? r.2)%N) unicode_digits
  | None => false
  end.

(** [needle in hay] for two strings. *)
Fixpoint str_in (needle hay : string) : bool :=
  if String.prefix needle hay then true
  else match hay with
       | EmptyString => false
       | String _ hay' => str_in needle hay'
       end.

(** Whether the character [c] occurs in [s]. *)
Fixpoint has_char (c : ascii) (s : string) : bool :=
  match s with
  | EmptyString => false
  | String a s' => Ascii.eqb a c || has_char c s'
  end.

(** The characters of [s] that satisfy [p], in order. *)
Fixpoint string_filter (p : ascii -> bool) (s : string) : string :=
  match s with
  | EmptyString => EmptyString
  | String c s' =>
      if p c then String c (string_filter p s') else string_filter p s'
  end.

(** The last character of a string. *)
Fixpoint last_char (s : string) : option ascii :=
  match s with
  | EmptyString => None
  | String c s' => match last_char s' with None => Some c | o => o end
  end.

(** [f.readlines()]: the text cut after every newline, newlines kept. *)
Fixpoint readlines (s : string) : list string :=
  match s with
  | EmptyString => []
  | String c s' =>
      if Ascii.eqb c newline then String c EmptyString :: readlines s'
      else match readlines s' with
           | [] => [String c EmptyString]
           | l :: ls => String c l :: ls
           end
  end.

(* ------------------------------------------------------------------ *)
(** ** helper_functions.py: word splitting and job identifier *)

(** The loop of [string_to_word_list], with its two locals. *)
Fixpoint string_to_word_list_loop
    (s : string) (word_list : list string) (temp_word : string) : list string :=
  match s with
  | EmptyString => word_list
  | String c s' =>
      if negb (Ascii.eqb c space)
      then string_to_word_list_loop s' word_list
             (temp_word +:+ String c EmptyString)
      else string_to_word_list_loop s' (word_list ++ [temp_word]) EmptyString
  end.

Definition string_to_word_list (s : string) : list string :=
  string_to_word_list_loop s [] EmptyString.

(** The inner loop of [find_job_id_from_exec_output], over the characters
    of a word: the digits of the word. *)
Fixpoint digits_of (cs : list string) (temp_s : string) : string :=
  match cs with
  | [] => temp_s
  | c :: cs' =>
      if str_isdigit c then digits_of cs' (temp_s +:+ c)
      else digits_of cs' temp_s
  end.

(** The [enumerate] loop; [items] is the part of [word_list] still to visit
    and [index] the position of its head. *)
Fixpoint find_job_id_loop
    (word_list : list string) (index : nat) (items : list string)
    (val : string) : result string :=
  match items with
  | [] => Val val
  | item :: rest =>
      if String.eqb item "Job"
      then match word_list !! (index + 1)%nat with
           | None => Raise IndexError
           | Some w =>
               find_job_id_loop word_list (S index) rest
                                (digits_of (chars w) EmptyString)
           end
      else find_job_id_loop word_list (S index) rest val
  end.

Definition no_job_id (output_string : string) : string :=
  "no job id in: " +:+ output_string.

Definition find_job_id_from_exec_output (output_string : string)
  : result string :=
  let val := no_job_id output_string in
  let word_list := string_to_word_list output_string in
  find_job_id_loop word_list 0 word_list val.

(* ------------------------------------------------------------------ *)
(** ** The world outside the process *)

(** An entry of the working directory: a regular file that holds text,
    with its text (as [read()] in text mode returns it); a regular file
    whose bytes are not text in the encoding of the platform; or a
    directory. *)
Inductive node : Type :=
| File (content : string)
| Undecodable
| Dir.

(** What the engine sends to the status sink ([LogText]): one entry per
    [write_update] and one per [write_time], whose text is the elapsed
    wall-clock time. The log is reopened under its relative name at every
    write: [Update] is a line written from the initial directory, to the
    status log itself; [UpdateIn d] is a line written while the current
    directory is the sub folder [d], which goes to the file of that name in
    the sub folder, another file than the status log. *)
Inductive status_entry : Type :=
| Update (text : string)
| Elapsed
| UpdateIn (sub_folder : string) (text : string).

(** What the engine asks of the operating system besides file tests and
    removals: files opened for writing and processes started. *)
Inductive event : Type :=
| OpenW (name : string)
| System (cmd : string)
| Spawn (cmd : string) (cwd : option string).

Record World : Type := mkWorld {
  fs : gmap string node;
  status : list status_entry;
  trace : list event
}.

Definition with_fs
    (f : gmap string node -> gmap string node) (w : World) : World :=
  mkWorld (f (fs w)) (status w) (trace w).
Definition log_event (e : event) (w : World) : World :=
  mkWorld (fs w) (status w) (trace w ++ [e]).

(** [LogText.write_update] and [LogText.write_time]. *)
Definition write_update (text : string) : M World unit :=
  modify (fun w => mkWorld (fs w) (status w ++ [Update text]) (trace w)).
Definition write_time : M World unit :=
  modify (fun w => mkWorld (fs w) (status w ++ [Elapsed]) (trace w)).

(** [status.write_update(text)] after [os.chdir(sub_folder)], when a sub
    folder is given. *)
Definition write_update_in (sub_folder : option string) (text : string)
  : M World unit :=
  match sub_folder with
  | None => write_update text
  | Some d =>
      modify (fun w => mkWorld (fs w) (status w ++ [UpdateIn d text]) (trace w))
  end.

(** [os.path.exists], [os.path.isfile], [os.path.isdir]. *)
Definition os_path_exists (name : string) : M World bool :=
  fun w => (Val (bool_decide (is_Some (fs w !! name))), w).
Definition os_path_isfile (name : string) : M World bool :=
  fun w =>
    (Val (match fs w !! name with
          | Some (File _) | Some Undecodable => true
          | _ => false
          end), w).
Definition os_path_isdir (name : string) : M World bool :=
  fun w => (Val (match fs w !! name with Some Dir => true | _ => false end), w).

(** [os.remove]: only a regular file can be removed. *)
Definition os_remove (name : string) : M World unit :=
  fun w => match fs w !! name with
           | Some (File _) | Some Undecodable =>
               (Val tt, with_fs (delete name) w)
           | Some Dir => (Raise IsADirectoryError, w)
           | None => (Raise FileNotFoundError, w)
           end.

(** [shutil.rmtree]: removes a directory. *)
Definition shutil_rmtree (name : string) : M World unit :=
  fun w => match fs w !! name with
           | Some Dir => (Val tt, with_fs (delete name) w)
           | Some (File _) | Some Undecodable => (Raise NotADirectoryError, w)
           | None => (Raise FileNotFoundError, w)
           end.

(** [os.rename] (POSIX): the source takes the place of the destination; a
    file does not replace a directory nor a directory a file. *)
Definition os_rename (src dst : string) : M World unit :=
  fun w => match fs w !! src with
           | None => (Raise FileNotFoundError, w)
           | Some n =>
               match n, fs w !! dst with
               | File _, Some Dir | Undecodable, Some Dir =>
                   (Raise IsADirectoryError, w)
               | Dir, Some (File _) | Dir, Some Undecodable =>
                   (Raise NotADirectoryError, w)
               | _, _ => (Val tt, with_fs (fun m => <[dst := n]> (delete src m)) w)
               end
           end.

(** [open(name).readlines()]: the file is read in text mode, which fails
    on bytes that do not decode. *)
Definition open_readlines (name : string) : M World (list string) :=
  fun w => match fs w !! name with
           | Some (File content) => (Val (readlines content), w)
           | Some Undecodable => (Raise UnicodeDecodeError, w)
           | Some Dir => (Raise IsADirectoryError, w)
           | None => (Raise FileNotFoundError, w)
           end.

(** [open(name, "w")]: the file is created or truncated. *)
Definition open_w (name : string) : M World unit :=
  fun w => match fs w !! name with
           | Some Dir => (Raise IsADirectoryError, w)
           | _ => (Val tt, log_event (OpenW name)
                            (with_fs <[name := File EmptyString]> w))
           end.

(** [f.write(text)] on the file opened under [name]. *)
Definition f_write (name text : string) : M World unit :=
  modify (with_fs (fun m => match m !! name with
                            | Some (File c) => <[name := File (c +:+ text)]> m
                            | _ => m
                            end)).

(* ------------------------------------------------------------------ *)
(** ** helper_functions.py: log inspection and cleanup *)

Definition error_syndrome : string :=
  "may be opened in another instance of the application.".

Definition find_lock_error_syndrome (job_name : string) : M World bool :=
  (let* lines := open_readlines job_name in
   ret (fold_left (fun no_errors line =>
                     if str_in error_syndrome line then true else no_errors)
                  lines false))%py.

(** The inner loop of [detect_errors_from_log_file] over the words of a line. *)
Definition report_line (display_warnings : bool) (words : list string) : bool :=
  fold_left (fun report w =>
               if String.eqb w "[error]" then true
               else if String.eqb w "[warning]" && display_warnings then true
               else report)
            words false.

Definition is_IndexError (e : exn) : bool :=
  match e with IndexError => true | _ => false end.

(** [lines[i]]. *)
Definition item {S} (lines : list string) (i : nat) : M S string :=
  match lines !! i with Some l => ret l | None => raise IndexError end.

(** The body of the loop [for i in range(len(lines))]. *)
Definition detect_errors_line
    (lines : list string) (display_warnings : bool) (i : nat) : M World unit :=
  (let* line := item lines i in
   if report_line display_warnings (string_to_word_list line) then
     write_update line ;;;
     try_catch is_IndexError
       (let* l1 := item lines (i + 1) in write_update l1 ;;;
        let* l2 := item lines (i + 2) in write_update l2 ;;;
        let* l3 := item lines (i + 3) in write_update l3)
       (ret tt)
   else ret tt)%py.

Definition detect_errors_from_log_file
    (log_file_name : string) (display_warnings : bool) : M World unit :=
  (let* lines := open_readlines log_file_name in
   write_update ("Checking for errors and warnings " +:+ "in: "
                 +:+ log_file_name) ;;;
   for_each (seq 0 (length lines))
            (detect_errors_line lines display_warnings))%py.

Definition file_to_check
    (project_name : string) (clean_aedt_file clean_aedtresults : bool)
  : list string :=
  [project_name +:+ ".aedt.q.completed";
   project_name +:+ ".aedt.batchinfo";
   project_name +:+ ".aedt.lock";
   project_name +:+ ".aedt.temp";
   project_name +:+ ".aedt.auto"]
  ++ (if clean_aedt_file then [project_name +:+ ".aedt"] else [])
  ++ (if clean_aedtresults then [project_name +:+ ".aedtresults"] else []).

(** The body of the loop [for file_name in file_to_check], which runs
    after [os.chdir(sub_folder)] when a sub folder is given. *)
Definition clean_project_file
    (sub_folder : option string) (file_name : string) : M World unit :=
  (let* isfile := os_path_isfile file_name in
   (if isfile then
      os_remove file_name ;;;
      write_update_in sub_folder ("Removed " +:+ file_name)
    else ret tt) ;;;
   let* isdir := os_path_isdir file_name in
   if isdir then
     shutil_rmtree file_name ;;;
     write_update_in sub_folder ("Removed " +:+ file_name)
   else ret tt)%py.

Definition clean_project_files
    (project_name : string) (clean_aedt_file clean_aedtresults : bool)
    (sub_folder : option string)
  : M World unit :=
  for_each (file_to_check project_name clean_aedt_file clean_aedtresults)
           (clean_project_file sub_folder).

(* ------------------------------------------------------------------ *)
(** ** specific_types.py *)

Record SimulationResources : Type := mkResources {
  cores : Z;
  time : string;
  RAM : option Z;
  scratch : option Z
}.

Definition dquote : string := String "034"%char EmptyString.
Definition nl : string := String newline EmptyString.

(* ------------------------------------------------------------------ *)
(** ** Run_Job.py and Execute_Script.py: the job dispatcher *)

Section Dispatcher.

  (** The processes started by the engine (the ANSYS application, the
      generated bash file) are outside the program: [run_process cmd cwd]
      gives the working directory they leave behind and what they print. *)
Variable run_process :
    string -> option string -> gmap string node -> gmap string node * string.

  (** [subprocess.call(cmd, cwd=cwd)]: blocks until the process returns. *)
Definition subprocess_call (cmd : string) (cwd : option string) : M World unit :=
    fun w => (Val tt, mkWorld (run_process cmd cwd (fs w)).1 (status w)
                              (trace w ++ [Spawn cmd cwd])).

  (** [Popen(cmd, shell=True, stdout=PIPE, cwd=cwd).stdout.read().decode()]. *)
Definition popen_read (cmd : string) (cwd : option string) : M World string :=
    fun w => (Val (run_process cmd cwd (fs w)).2,
              mkWorld (run_process cmd cwd (fs w)).1 (status w)
                      (trace w ++ [Spawn cmd cwd])).

  (** [os.system(cmd)]; the mode bits it changes are not part of [node]. *)
Definition os_system (cmd : string) : M World unit :=
    modify (log_event (System cmd)).

Definition run_local_job
      (ansys_exec_address design_name setup_to_analyse : option string)
      (aedt_file_name : string) (job_log_name sub_folder : option string)
    : M World unit :=
    (let job_log_name := default "job.log" job_log_name in
     let cmd_options :=
       "-features=beta -ng " +:+ "-monitor -logfile " +:+ job_log_name
       +:+ " -batchsolve " in
     let* ansys_exec_address := not_none ansys_exec_address in
     let* design_name := not_none design_name in
     let* setup_to_analyse := not_none setup_to_analyse in
     subprocess_call
       ("cmd /c" +:+ " " +:+ ansys_exec_address +:+ " " +:+
        cmd_options +:+ " " +:+
        design_name +:+ ":" +:+
        setup_to_analyse +:+ " " +:+
        aedt_file_name)
       sub_folder)%py.

  (** The file ['batch.cfg '] is opened in the current directory of the
      process, which is the task's working directory only when no sub
      folder is given. *)
Definition write_batch_cfg (sub_folder : option string) : M World unit :=
    let g := "batch.cfg " in
    match sub_folder with
    | None =>
        (open_w g ;;;
         f_write g ("$begin 'Config'" +:+ nl) ;;;
         f_write g ("'HFSS/NumCoresPerDistributedTask'=1" +:+ nl) ;;;
         f_write g ("'HFSS/HPCLicenseType'='pool'" +:+ nl) ;;;
         f_write g ("$end 'Config'" +:+ nl))%py
    | Some _ => modify (log_event (OpenW g))
    end.

Definition run_euler_job
      (aedt_file_name : string) (resources_requested : option SimulationResources)
      (name_bash_file script_name design_name setup_to_analyse
         job_log_name sub_folder : option string)
    : M World string :=
    (let name_bash_file := default "temporary_bash_file.sh" name_bash_file in
     let job_log_name := default "job.log" job_log_name in
     if bool_decide (is_Some script_name)
        && (bool_decide (is_Some setup_to_analyse)
            || bool_decide (is_Some design_name))
     then raise (Exception "Cannot run a script and analyse a setup simultaneously")
     else
       open_w name_bash_file ;;;
       f_write name_bash_file ("module load ansys_em/19.5" +:+ nl) ;;;
       let exec_str := "bsub" +:+ " " in
       let* r := not_none resources_requested in
       let exec_str := exec_str +:+ "-n " +:+ pretty (cores r) +:+ " " in
       let exec_str := exec_str +:+ "-W " +:+ time r +:+ " " in
       let exec_str :=
         match RAM r with
         | Some ram =>
             (exec_str +:+ ("-R " +:+ dquote +:+ "rusage[mem=" +:+ pretty ram
                            +:+ "]" +:+ dquote)) +:+ " "
         | None => exec_str
         end in
       let exec_str :=
         match scratch r with
         | Some scr =>
             (exec_str +:+ ("-R " +:+ dquote +:+ "rusage[scratch=" +:+ pretty scr
                            +:+ "]" +:+ dquote)) +:+ " "
         | None => exec_str
         end in
       let* exec_str :=
         match script_name, setup_to_analyse, design_name with
         | Some script_name, _, _ =>
             let exec_str := exec_str +:+ "ansysedt -features=beta" +:+ " " in
             let exec_str := exec_str +:+ "-ng -runscriptandexit" +:+ " " in
             let exec_str := exec_str +:+ script_name +:+ " " in
             ret (exec_str +:+ aedt_file_name +:+ nl)
         | None, Some setup_to_analyse, Some design_name =>
             let exec_str :=
               exec_str +:+ "'ansysedt -monitor -distributed -ng" +:+ " " in
             let exec_str := exec_str +:+ "-logfile " +:+ job_log_name +:+ " " in
             let* exec_str :=
               if (1 <? cores r)%Z then
                 write_batch_cfg sub_folder ;;;
                 let exec_str := exec_str +:+ "-batchoptions batch.cfg" +:+ " " in
                 ret (exec_str +:+ "-machinelist numcores=" +:+
                      pretty (cores r) +:+ " " +:+
                      "-auto NumDistributedVariations=" +:+
                      pretty (cores r) +:+ " ")
               else ret exec_str in
             let exec_str := exec_str +:+ "-batchsolve " +:+ dquote in
             let exec_str :=
               exec_str +:+ design_name +:+ ":" +:+ setup_to_analyse
               +:+ dquote +:+ " " in
             ret (exec_str +:+ aedt_file_name +:+ "'" +:+ nl)
         | None, _, _ => ret exec_str
         end in
       f_write name_bash_file exec_str ;;;
       os_system ("chmod 755 " +:+ name_bash_file) ;;;
       let* output_string := popen_read ("./" +:+ name_bash_file) sub_folder in
       of_result (find_job_id_from_exec_output output_string))%py.

Definition run_job
      (setup_to_analyse : option string) (aedt_file_name exec_option : string)
      (design_name ansys_exec_address job_log_name : option string)
      (resources_requested : option SimulationResources)
      (bash_file_name sub_folder : option string)
    : M World (option string) :=
    (if String.eqb exec_option "local" then
       run_local_job ansys_exec_address design_name setup_to_analyse
                     aedt_file_name job_log_name sub_folder ;;;
       ret None
     else if String.eqb exec_option "euler" then
       let* job_id :=
         run_euler_job aedt_file_name resources_requested bash_file_name
                       None design_name setup_to_analyse job_log_name sub_folder in
       ret (Some job_id)
     else ret None)%py.

Definition local_script_execution
      (script_name : option string) (aedt_file_name : string)
      (ansys_exec_address sub_folder : option string)
    : M World unit :=
    (let cmd_options := "-features=beta -ng -runscriptandexit" in
     let* ansys_exec_address := not_none ansys_exec_address in
     let* script_name := not_none script_name in
     subprocess_call
       ("cmd /c" +:+ " " +:+ ansys_exec_address +:+ " " +:+
        cmd_options +:+ " " +:+
        script_name +:+ " " +:+
        aedt_file_name)
       sub_folder)%py.

Definition execute_script
      (script_name : option string) (aedt_file_name exec_option : string)
      (ansys_exec_address : option string)
      (resources_requested : option SimulationResources)
      (name_bash_file job_log_name sub_folder : option string)
    : M World string :=
    (if String.eqb exec_option "local" then
       local_script_execution script_name aedt_file_name ansys_exec_address
                              sub_folder ;;;
       ret "0"
     else if String.eqb exec_option "euler" then
       run_euler_job aedt_file_name resources_requested name_bash_file
                     script_name None None job_log_name sub_folder
     else raise (Exception ("execution option: " +:+ exec_option
                            +:+ " not handled")))%py.

End Dispatcher.

(* ------------------------------------------------------------------ *)
(** ** task_class.py: Step *)

(** Keyword arguments of a Python step, and the callable they are passed
    to: it works on the world outside the task and may raise. *)
Definition kwargs : Type := list (string * string).
Definition callable : Type := kwargs -> M World unit.

Module Step.

Record t : Type := mk {
    name : string;
    display_name : string;
    done : bool;
    in_progress : bool;
    step_type : string;
    move_to_log_file : bool;
    sub_folder : option string;
    script_name : option string;
    resources_requested : option SimulationResources;
    log_file_name : option string;
    bash_file_name : option string;
    setup_to_analyse : option string;
    design_name : option string;
    job_id : option string;
    func : option callable;
    arg_list : option kwargs
  }.

Definition set_done (b : bool) (s : t) : t :=
    mk (name s) (display_name s) b (in_progress s) (step_type s)
       (move_to_log_file s) (sub_folder s) (script_name s)
       (resources_requested s) (log_file_name s) (bash_file_name s)
       (setup_to_analyse s) (design_name s) (job_id s) (func s) (arg_list s).

Definition set_in_progress (b : bool) (s : t) : t :=
    mk (name s) (display_name s) (done s) b (step_type s)
       (move_to_log_file s) (sub_folder s) (script_name s)
       (resources_requested s) (log_file_name s) (bash_file_name s)
       (setup_to_analyse s) (design_name s) (job_id s) (func s) (arg_list s).

Definition set_job_id (j : option string) (s : t) : t :=
    mk (name s) (display_name s) (done s) (in_progress s) (step_type s)
       (move_to_log_file s) (sub_folder s) (script_name s)
       (resources_requested s) (log_file_name s) (bash_file_name s)
       (setup_to_analyse s) (design_name s) j (func s) (arg_list s).

  (** [Step.__init__]. *)
Definition init
      (name display_name step_type : string)
      (bash_file_name : option string)
      (resources_requested : option SimulationResources)
      (move_to_log_file_dir : bool)
      (script_name sub_folder log_file_name design_name
         setup_to_analyse : option string)
      (func : option callable) (arg_list : option kwargs) : result t :=
    if bool_decide (step_type ∈ ["Script"; "Analysis"; "Python"])
    then Val (mk name display_name false false step_type move_to_log_file_dir
                 sub_folder script_name resources_requested log_file_name
                 bash_file_name setup_to_analyse design_name None func arg_list)
    else Raise (Exception ("Step type: " +:+ step_type +:+ " not handled.")).

End Step.

(* ------------------------------------------------------------------ *)
(** ** task_class.py: Task *)

Module Task.

Record t : Type := mk {
    project_name : string;
    exec_option : string;
    ansys_exec_address : option string;
    sub_folder : option string;
    steps : list Step.t;
    step_iterator : nat;
    done : bool;
    display_warning : bool
  }.

Definition set_steps (l : list Step.t) (self : t) : t :=
    mk (project_name self) (exec_option self) (ansys_exec_address self)
       (sub_folder self) l (step_iterator self) (done self)
       (display_warning self).

Definition set_step_iterator (i : nat) (self : t) : t :=
    mk (project_name self) (exec_option self) (ansys_exec_address self)
       (sub_folder self) (steps self) i (done self) (display_warning self).

Definition set_done (b : bool) (self : t) : t :=
    mk (project_name self) (exec_option self) (ansys_exec_address self)
       (sub_folder self) (steps self) (step_iterator self) b
       (display_warning self).

  (** [Task.__init__]; the status sink is part of the world. *)
Definition init
      (project_name exec_option : string)
      (sub_folder ansys_exec_address : option string)
      (display_warnings : bool) : t :=
    mk project_name exec_option ansys_exec_address sub_folder [] 0 false
       display_warnings.

  (** [self.steps.append(step)]. *)
Definition append_step (step : Step.t) (self : t) : t :=
    set_steps (steps self ++ [step]) self.

Definition add_python_step
      (step_name step_display_name : string) (func : callable) (args : kwargs)
      (self : t) : result t :=
    match Step.init step_name step_display_name "Python" None None false
                    None None None None None (Some func) (Some args) with
    | Val step => Val (append_step step self)
    | Raise e => Raise e
    end.

Definition add_analysis_step
      (step_name step_display_name : string) (bash_file_name : option string)
      (resources_requested : option SimulationResources)
      (move_to_log_file_dir : bool)
      (log_file_name design_name setup_to_analyse : option string)
      (self : t) : result t :=
    match Step.init step_name step_display_name "Analysis" bash_file_name
                    resources_requested move_to_log_file_dir
                    None None log_file_name design_name setup_to_analyse
                    None None with
    | Val step => Val (append_step step self)
    | Raise e => Raise e
    end.

  (** [Task.next_step], on the task alone. *)
Definition next_step (self : t) : t :=
    if (step_iterator self + 1 =? length (steps self))%nat
    then set_done true self
    else set_step_iterator (step_iterator self + 1) self.

  (** [Task.report_state]. *)
Definition report_state (self : t) : string :=
    fold_left (fun report_str step =>
                 (report_str +:+ "|" +:+ Step.display_name step +:+ "|")
                 +:+ (if Step.done step then "O" else "X"))
              (steps self) (project_name self)
    +:+ "|".

End Task.

(* ------------------------------------------------------------------ *)
(** ** task_class.py: Task.execute_step *)

(** The state of a poll: the task object and the world around it. *)
Definition state : Type := Task.t * World.

(** An operation of the world, run from a method of the task. *)
Definition io {A} (m : M World A) : M state A :=
  fun s => ((m s.2).1, (s.1, (m s.2).2)).

Definition self_ : M state Task.t := fun s => (Val s.1, s).
Definition modify_self (f : Task.t -> Task.t) : M state unit :=
  fun s => (Val tt, (f s.1, s.2)).

(** An assignment to a field of [current_step], the object stored at
    [self.steps[self.step_iterator]]. *)
Definition set_current_step (f : Step.t -> Step.t) : M state unit :=
  modify_self (fun self =>
    Task.set_steps (alter f (Task.step_iterator self) (Task.steps self)) self).

(** [f"{job_id}"]. *)
Definition format_opt (o : option string) : string := default "None" o.

Definition any_exception (e : exn) : bool := true.

Section Engine.

Variable run_process :
    string -> option string -> gmap string node -> gmap string node * string.

  (** [os.path.splitext(p)[0]] of the platform. *)
Variable splitext_root : string -> string.

Definition call_func (step : Step.t) : M World unit :=
    match Step.func step, Step.arg_list step with
    | Some f, Some args => f args
    | _, _ => raise TypeError
    end.

Definition execute_step : M state unit :=
    (let* self := self_ in
     let* current_step :=
       match Task.steps self !! Task.step_iterator self with
       | Some step => ret step
       | None => raise IndexError
       end in
     if Step.done current_step then
       modify_self Task.next_step
     else if String.eqb (Step.step_type current_step) "Python" then
       io (write_update ("Executing python " +:+ "step: "
                         +:+ Step.name current_step)) ;;;
       try_catch any_exception
         (io (call_func current_step))
         (io (write_update "Error for optimization plotting")) ;;;
       modify_self Task.next_step
     else
       let* log_file_name :=
         if String.eqb (Step.step_type current_step) "Script" then
           let* script_name := not_none (Step.script_name current_step) in
           ret (Some (splitext_root script_name +:+ ".log"))
         else ret (Step.log_file_name current_step) in
       let* log_file_name := not_none log_file_name in
       if negb (Step.in_progress current_step) then
         let* pre_existing := io (os_path_exists log_file_name) in
         (if pre_existing then
            io (os_remove log_file_name) ;;;
            io (write_update "Pre existing log file removed")
          else ret tt) ;;;
         io (write_update ("Executing" +:+ " " +:+ splitext_root log_file_name)) ;;;
         let* job_id :=
           if String.eqb (Step.step_type current_step) "Script" then
             let* job_id :=
               io (execute_script run_process
                     (Step.script_name current_step)
                     (Task.project_name self +:+ ".aedt")
                     (Task.exec_option self)
                     (Task.ansys_exec_address self)
                     (Step.resources_requested current_step)
                     (Step.bash_file_name current_step)
                     None
                     (Task.sub_folder self)) in
             ret (Some job_id)
           else
             io (run_job run_process
                   (Step.setup_to_analyse current_step)
                   (Task.project_name self +:+ ".aedt")
                   (Task.exec_option self)
                   (Step.design_name current_step)
                   (Task.ansys_exec_address self)
                   (Some log_file_name)
                   (Step.resources_requested current_step)
                   (Step.bash_file_name current_step)
                   (Task.sub_folder self)) in
         set_current_step (Step.set_in_progress true) ;;;
         if String.eqb (Task.exec_option self) "euler" then
           io (write_update ("Job ID: " +:+ format_opt job_id +:+ " associated to"
                             +:+ " the step: " +:+ Step.name current_step)) ;;;
           set_current_step (Step.set_job_id job_id)
         else ret tt
       else
         if negb (Step.done current_step) then
           let* log_exists := io (os_path_exists log_file_name) in
           if log_exists then
             let* lock_error := io (find_lock_error_syndrome log_file_name) in
             if negb lock_error then
               if String.eqb (Task.exec_option self) "local" then
                 io (write_update "No error lock syndrome detected") ;;;
                 io (detect_errors_from_log_file log_file_name
                       (Task.display_warning self)) ;;;
                 io (write_update "Preventive cleaning") ;;;
                 io (clean_project_files (Task.project_name self) false false
                       (Task.sub_folder self)) ;;;
                 set_current_step (Step.set_done true)
               else
                 let* job_id := not_none (Step.job_id current_step) in
                 let lsf_report_default_name := "lsf.o" +:+ job_id in
                 let* report_exists := io (os_path_exists lsf_report_default_name) in
                 if report_exists then
                   io (write_update "No error lock syndrome detected") ;;;
                   io (detect_errors_from_log_file log_file_name
                         (Task.display_warning self)) ;;;
                   io (os_rename lsf_report_default_name
                         ("lfs_" +:+ splitext_root log_file_name +:+ ".txt")) ;;;
                   io (write_update (" lsf.o file renamed to " +:+ "lsf_"
                                     +:+ splitext_root log_file_name)) ;;;
                   io (write_update "Preventive cleaning") ;;;
                   io (clean_project_files (Task.project_name self) false false
                         (Task.sub_folder self)) ;;;
                   io (write_update "script execution completed") ;;;
                   io write_time ;;;
                   set_current_step (Step.set_done true)
                 else ret tt
             else
               io (write_update "Error lock syndrome detected") ;;;
               io (write_update ("Check and remove potential "
                                 +:+ "completion and lock files")) ;;;
               io (clean_project_files (Task.project_name self) false false
                     (Task.sub_folder self)) ;;;
               io (os_remove log_file_name) ;;;
               set_current_step (Step.set_in_progress false)
           else ret tt
         else ret tt)%py.

(** The log file that [execute_step] looks for: derived from the script
    name for a script step, given by the caller otherwise. *)
Definition step_log_file_name (step : Step.t) : option string :=
  if String.eqb (Step.step_type step) "Script"
  then (fun script_name => splitext_root script_name +:+ ".log")
         <$> Step.script_name step
  else Step.log_file_name step.

(** A sequence of calls to [execute_step] on one task, as a driver makes
    them: between two calls the world moves on by itself (jobs write their
    logs, the scheduler delivers its reports), which [envs] gives, one
    change per call. *)
Fixpoint polls (envs : list (World -> World)) (s : state) : state :=
  match envs with
  | [] => s
  | env :: envs' =>
      let s' := (execute_step s).2 in
      polls envs' (s'.1, env s'.2)
  end.

End Engine.

(* ------------------------------------------------------------------ *)
(** ** Vocabulary of the properties *)

(** A relation between the state before and the state after that every
    run of the computation satisfies, however it ends. *)
Definition stable {S A} (R : relation S) (m : M S A) : Prop :=
  forall s, R s (m s).2.

(** The progress fields of a step are [done], [in_progress] and [job_id];
    the other fields, fixed when the step is built, are its identity. *)
Definition identity (s : Step.t) :=
  (Step.name s, Step.display_name s, Step.step_type s,
   Step.move_to_log_file s, Step.sub_folder s, Step.script_name s,
   Step.resources_requested s, Step.log_file_name s, Step.bash_file_name s,
   Step.setup_to_analyse s, Step.design_name s, Step.func s, Step.arg_list s).

Definition step_evolves (s s' : Step.t) : Prop := identity s' = identity s.

(** A task is framed by another when only the progress fields of the step
    under the cursor differ. *)
Definition controls (t : Task.t) :=
  (Task.project_name t, Task.exec_option t, Task.ansys_exec_address t,
   Task.sub_folder t, Task.step_iterator t, Task.done t,
   Task.display_warning t).

Definition frame (t t' : Task.t) : Prop :=
  controls t' = controls t
  /\ Forall2 step_evolves (Task.steps t) (Task.steps t')
  /\ forall i, i <> Task.step_iterator t ->
               Task.steps t' !! i = Task.steps t !! i.

(** The same, on the states of a poll. *)
Definition framed (s s' : state) : Prop := frame s.1 s'.1.

(** A poll that does not reach [current_step.done = True] keeps the flag. *)
Definition keeps_done (s s' : state) : Prop :=
  Task.step_iterator s'.1 = Task.step_iterator s.1
  /\ Step.done <$> (Task.steps s'.1 !! Task.step_iterator s.1)
     = Step.done <$> (Task.steps s.1 !! Task.step_iterator s.1).

(* ------------------------------------------------------------------ *)
(** ** Concrete surroundings, for running the model *)

(** A process that touches no file and prints nothing. *)
Definition idle_process
    (cmd : string) (cwd : option string) (m : gmap string node)
  : gmap string node * string := (m, EmptyString).

(** A scheduler front end that accepts every submission as job 1234. *)
Definition bsub_process
    (cmd : string) (cwd : option string) (m : gmap string node)
  : gmap string node * string :=
  (m, "Job <1234> is submitted to queue <normal.4h>." +:+ nl).

(** [os.path.splitext(p)[0]] for a plain file name: no directory part and
    a stem that is not empty. *)
Fixpoint splitext_root_plain (p : string) : string :=
  match p with
  | EmptyString => EmptyString
  | String c p' =>
      if has_char "."%char p' then String c (splitext_root_plain p')
      else if Ascii.eqb c "."%char then EmptyString
      else String c (splitext_root_plain p')
  end.

(** A callable that fails, as a plotting function does on missing data. *)
Definition failing_callable : callable := fun _ => raise (Exception "no data").

Definition empty_world : World := mkWorld ∅ [] [].

(** A task of two steps on the project [chip], run locally: the report of
    an optimisation, then a script. *)
Definition plot_step : Step.t :=
  Step.mk "plot_optimization_results_chip" "Plot Opti" false false "Python"
          false None None None None None None None None
          (Some failing_callable) (Some []).

Definition export_step : Step.t :=
  Step.mk "export_cache" "Export" false false "Script" true None
          (Some "export_cache.vbs") None None (Some "export_cache.sh")
          None None None None None.

Definition report_task : Task.t :=
  Task.mk "chip" "local" (Some "ansysedt.exe") (Some "chip")
          [plot_step; export_step] 0 false false.

(** A task whose only step is the report. *)
Definition plot_task : Task.t :=
  Task.mk "chip" "local" (Some "ansysedt.exe") (Some "chip")
          [plot_step] 0 false false.

(** A sweep submitted to the cluster as job 1234 and not yet seen done. *)
Definition sweep_step : Step.t :=
  Step.mk "sweep" "Sweep" false true "Analysis" false None None
          (Some (mkResources 5 "10:00" (Some 5000%Z) None))
          (Some "sweep.log") (Some "sweep.sh") (Some "Setup1")
          (Some "HFSSDesign1") (Some "1234") None None.

Definition sweep_task : Task.t :=
  Task.mk "chip" "euler" None (Some "chip") [sweep_step] 0 false false.

(** The working directory once the job has written its log and the
    scheduler its report. *)
Definition finished_world : World :=
  mkWorld {[ "sweep.log" := File ("Simulation completed" +:+ nl);
             "lsf.o1234" := File "Successfully completed." ]} [] [].

(** The same sweep on a task whose execution option names no backend, not
    yet dispatched. *)
Definition cloud_task : Task.t :=
  Task.mk "chip" "cloud" None (Some "chip")
          [Step.set_job_id None (Step.set_in_progress false sweep_step)]
          0 false false.


(* ------------------------------------------------------------------ *)
(** ** helper_functions.py: text helpers of the script writer *)

Definition tab : ascii := "009"%char.
Definition lparen : ascii := "("%char.

(** The loop of [convert_py_list_to_vbs_array] over [range(len(w) - 1)];
    [str_] is [str] on the elements of the list. *)
Fixpoint vbs_array_loop {A}
    (str_ : A -> string) (w : list A) (indices : list nat)
    (str_array : string) : result string :=
  match indices with
  | [] => Val str_array
  | i :: rest =>
      match w !! i with
      | None => Raise IndexError
      | Some x =>
          vbs_array_loop str_ w rest
            (str_array +:+ dquote +:+ str_ x +:+ dquote +:+ ",")
      end
  end.

Definition convert_py_list_to_vbs_array {A}
    (str_ : A -> string) (w : list A) : result string :=
  match vbs_array_loop str_ w (seq 0 (length w - 1)) "Array(" with
  | Raise e => Raise e
  | Val str_array =>
      match last w with
      | None => Raise IndexError
      | Some x => Val (str_array +:+ dquote +:+ str_ x +:+ dquote +:+ ")")
      end
  end.

(** The loop of [get_first_word]; falling off the end of the function is
    the value [None]. *)
Fixpoint get_first_word_loop (line : string) (res_char : string)
  : option string :=
  match line with
  | EmptyString => None
  | String c line' =>
      if negb (Ascii.eqb c tab)
      then get_first_word_loop line' (res_char +:+ String c EmptyString)
      else Some res_char
  end.

Definition get_first_word (line : string) : option string :=
  get_first_word_loop line EmptyString.

(** The loop shared by [get_variable_names] and
    [get_design_properties_from_text_file], over [range(len(lines) - 1)]. *)
Fixpoint first_words_loop
    (lines : list string) (indices : list nat)
    (variables : list (option string)) : result (list (option string)) :=
  match indices with
  | [] => Val variables
  | i :: rest =>
      match lines !! (i + 1)%nat with
      | None => Raise IndexError
      | Some line =>
          first_words_loop lines rest (variables ++ [get_first_word line])
      end
  end.

Definition get_variable_names (lines : list string)
  : result (list (option string)) :=
  first_words_loop lines (seq 0 (length lines - 1)) [].

Definition get_design_properties_from_text_file (text_file_name : string)
  : M World (list (option string)) :=
  (let* lines := open_readlines text_file_name in
   of_result (first_words_loop lines (seq 0 (length lines - 1)) []))%py.

(** [vbs_string[0]] and [vbs_string[-1]]. *)
Definition first_char (s : string) : option ascii :=
  match s with EmptyString => None | String c _ => Some c end.

Definition check_is_vbs_string (vbs_string : string) : result bool :=
  match first_char vbs_string with
  | None => Raise IndexError
  | Some c0 =>
      if negb (Ascii.eqb c0 "034"%char) then Val false
      else match last_char vbs_string with
           | None => Raise IndexError
           | Some c1 => if negb (Ascii.eqb c1 "034"%char) then Val false
                        else Val true
           end
  end.

(** The loop of [variable_in_list]: the text before the first [(]. *)
Fixpoint variable_name_loop (string_ : string) (variable_name : string)
  : string :=
  match string_ with
  | EmptyString => variable_name
  | String c rest =>
      if negb (Ascii.eqb c lparen)
      then variable_name_loop rest (variable_name +:+ String c EmptyString)
      else variable_name
  end.

Definition variable_in_list (string_ : string) (variable_list : list string)
  : bool :=
  bool_decide (variable_name_loop string_ EmptyString ∈ variable_list).

(** scripted_step_class.py: [ScriptedStep.check_var_or_str], on the list of
    script variables of the step. *)
Definition check_var_or_str
    (script_variables : list string) (variable_name : string) : result unit :=
  match check_is_vbs_string variable_name with
  | Raise e => Raise e
  | Val is_vbs =>
      if negb is_vbs && negb (variable_in_list variable_name script_variables)
      then Raise (Exception ("Variable : " +:+ variable_name
                             +:+ " not a vbs string "
                             +:+ "nor a predefined variable."))
      else Val tt
  end.

(* ------------------------------------------------------------------ *)
(** ** helper_functions.py: the listing of the design variations *)

(** [itertools.product] of the pools: the tuples in the order of nested
    loops, the rightmost pool advancing fastest. *)
Fixpoint itertools_product {A} (pools : list (list A)) : list (list A) :=
  match pools with
  | [] => [[]]
  | pool :: pools' =>
      concat (map (fun x => map (cons x) (itertools_product pools')) pool)
  end.

(** The typed dictionaries of specific_types.py; the values swept are
    floats, of which the code only takes [str]. *)
Record VariationParameters (value : Type) : Type := mkVariationParameters {
  var_name : string;
  sweep : list value
}.
Arguments mkVariationParameters {value} _ _.
Arguments var_name {value} _.
Arguments sweep {value} _.

Record VariationParametersListing (value : Type) : Type :=
  mkVariationParametersListing {
  project_list : list string;
  variable_order_convention : list string;
  variation_values_list : list (list value)
}.
Arguments mkVariationParametersListing {value} _ _ _.
Arguments project_list {value} _.
Arguments variable_order_convention {value} _.
Arguments variation_values_list {value} _.

(** Iterating over the dictionary gives its keys, in the order of the
    keyword arguments that built it. *)
Definition listing_keys {value} (_ : VariationParametersListing value)
  : list string :=
  ["project_list"; "variable_order_convention"; "variation_values_list"].

Section Variations.

Context {value : Type}.
Variable str_ : value -> string.

(** The loop [for index, variation_parameter in enumerate(...)] of
    [get_project_list], from [index] on. *)
Fixpoint project_name_loop
    (params : list (VariationParameters value)) (index : nat)
    (tuple_sweep : list value)
    (project_name_str : string) (variation_values : list value)
  : result (string * list value) :=
  match params with
  | [] => Val (project_name_str, variation_values)
  | variation_parameter :: params' =>
      match tuple_sweep !! index with
      | None => Raise IndexError
      | Some v =>
          project_name_loop params' (S index) tuple_sweep
            (project_name_str +:+ "_" +:+
             var_name variation_parameter +:+ "_" +:+ str_ v)
            (variation_values ++ [v])
      end
  end.

(** The loop [for tuple_sweep in ...] over the product of the sweeps. *)
Fixpoint project_list_loop
    (params : list (VariationParameters value))
    (root_of_variation_name : string) (tuples : list (list value))
    (project_list : list string) (variation_values_list : list (list value))
  : result (list string * list (list value)) :=
  match tuples with
  | [] => Val (project_list, variation_values_list)
  | tuple_sweep :: tuples' =>
      match project_name_loop params 0 tuple_sweep
              root_of_variation_name [] with
      | Val (project_name_str, variation_values) =>
          project_list_loop params root_of_variation_name tuples'
            (project_list ++ [project_name_str])
            (variation_values_list ++ [variation_values])
      | Raise e => Raise e
      end
  end.

Definition get_project_list
    (variation_parameters_dict : list (VariationParameters value))
    (root_of_variation_name : string)
  : result (VariationParametersListing value) :=
  let sweep_list := map sweep variation_parameters_dict in
  let variable_order_convention := map var_name variation_parameters_dict in
  match project_list_loop variation_parameters_dict root_of_variation_name
          (itertools_product sweep_list) [] [] with
  | Val (project_list, variation_values_list) =>
      Val (mkVariationParametersListing project_list
             variable_order_convention variation_values_list)
  | Raise e => Raise e
  end.

(** The loop of [test_finish] over the names it iterates on. *)
Fixpoint test_finish_loop
    (names : list string) (file_extension : string) (finish_bool : bool)
  : M World bool :=
  match names with
  | [] => ret finish_bool
  | project_name :: names' =>
      (let* is_file := os_path_isfile (project_name +:+ file_extension) in
       test_finish_loop names' file_extension
         (if negb is_file then false else finish_bool))%py
  end.

(** [test_finish]: the value returned by [get_project_list] is the
    dictionary, which the [for] loop iterates over. *)
Definition test_finish
    (root_of_variation_name : string)
    (variation_parameters_dict : list (VariationParameters value))
    (file_extension : string) : M World bool :=
  (let* project_list :=
     of_result (get_project_list variation_parameters_dict
                  root_of_variation_name) in
   test_finish_loop (listing_keys project_list) file_extension true)%py.

(** The name given to the variation of one tuple of values. *)
Definition variation_name
    (root_of_variation_name : string)
    (params : list (VariationParameters value)) (tuple_sweep : list value)
  : string :=
  fold_left (fun name pv => name +:+ "_" +:+ var_name pv.1 +:+ "_" +:+ str_ pv.2)
            (zip params tuple_sweep) root_of_variation_name.

End Variations.

(** The sweep of two variables used as an example. *)
Definition gap_sweep : list (VariationParameters Z) :=
  [mkVariationParameters "gap" [10; 20]%Z;
   mkVariationParameters "width" [1; 2; 3]%Z].
Definition gap_sweep_stalled : list (VariationParameters Z) :=
  [mkVariationParameters "gap" [10; 20]%Z;
   mkVariationParameters "width" []].

(* ------------------------------------------------------------------ *)
(** ** Vocabulary of the further properties *)

(** The words of a list written one after the other, each followed by a
    space. *)
Definition join_words (ws : list string) : string :=
  foldr (fun w r => w +:+ " " +:+ r) EmptyString ws.

(** Whether every character of [s] satisfies [p]. *)
Fixpoint string_forall (p : ascii -> bool) (s : string) : bool :=
  match s with
  | EmptyString => true
  | String c s' => p c && string_forall p s'
  end.

(** The bytes of ASCII, each of which is a character by itself. *)
Definition is_ascii (b : ascii) : bool := (N_of_ascii b <? 128)%N.

(** The shape of a character in a text: a byte that is no continuation
    byte, followed by continuation bytes. *)
Definition is_character (c : string) : Prop :=
  match c with
  | EmptyString => False
  | String b cont =>
      is_continuation b = false /\ string_forall is_continuation cont = true
  end.


(** What [detect_errors_from_log_file] sends to the status sink for the
    lines of a log, after its heading: each line with a marker word, then
    the lines that follow it, three at most. *)
Definition reported (display_warnings : bool) (lines : list string)
  : list status_entry :=
  flat_map
    (fun i =>
       match lines !! i with
       | Some line =>
           if report_line display_warnings (string_to_word_list line)
           then Update <$> take 4 (drop i lines)
           else []
       | None => []
       end)
    (seq 0 (length lines)).

(** The assignments that [execute_step] makes to the step under the
    cursor. *)
Inductive progress_update : (Step.t -> Step.t) -> Prop :=
| update_in_progress (b : bool) : progress_update (Step.set_in_progress b)
| update_job_id (j : option string) : progress_update (Step.set_job_id j)
| update_done : progress_update (Step.set_done true).

(** Done stays done: for the task and for each of its steps. *)
Definition done_kept (s s' : state) : Prop :=
  (Task.done s.1 = true -> Task.done s'.1 = true)
  /\ forall i step,
       Task.steps s.1 !! i = Some step -> Step.done step = true ->
       exists step', Task.steps s'.1 !! i = Some step'
                     /\ Step.done step' = true.

(** The task keeps its settings and its steps their identity. *)
Definition same_shape (s s' : state) : Prop :=
  Forall2 step_evolves (Task.steps s.1) (Task.steps s'.1)
  /\ Task.project_name s'.1 = Task.project_name s.1
  /\ Task.exec_option s'.1 = Task.exec_option s.1
  /\ Task.ansys_exec_address s'.1 = Task.ansys_exec_address s.1
  /\ Task.sub_folder s'.1 = Task.sub_folder s.1
  /\ Task.display_warning s'.1 = Task.display_warning s.1.

(** The cursor, once on a step, stays on a step. *)
Definition cursor_in_range (s s' : state) : Prop :=
  (Task.step_iterator s.1 < length (Task.steps s.1))%nat ->
  (Task.step_iterator s'.1 < length (Task.steps s'.1))%nat.

(** A computation that returns normally from every state. *)
Definition never_raises {S A} (m : M S A) : Prop :=
  forall s, exists a, (m s).1 = Val a.

(** A computation of a poll that leaves the task object alone. *)
Definition keeps_task {A} (m : M state A) : Prop :=
  forall s, (m s).2.1 = s.1.

(** A computation of a poll that, when it raises, has left the task object
    alone. *)
Definition failure_atomic {A} (m : M state A) : Prop :=
  forall s e, (m s).1 = Raise e -> (m s).2.1 = s.1.

(** The next poll of the task is the dispatch of a pending step on the
    cluster, the one path of [execute_step] where an assignment to the
    step ([in_progress = True]) is followed by a call that can fail (the
    write of the job identifier to the status log). *)
Definition dispatches_on_cluster (t : Task.t) : Prop :=
  Task.exec_option t = "euler"
  /\ exists step,
       Task.steps t !! Task.step_iterator t = Some step
       /\ Step.done step = false
       /\ Step.step_type step <> "Python"
       /\ Step.in_progress step = false.

(** No file opened for writing and no process started. *)
Definition same_trace (s s' : state) : Prop := trace s'.2 = trace s.2.
Definition same_trace_world (w w' : World) : Prop := trace w' = trace w.

(** A script step of the project [chip] run locally, before its dispatch
    and after it, and the directory once the application has written a
    log. *)
Definition export_task : Task.t :=
  Task.mk "chip" "local" (Some "ansysedt.exe") (Some "chip")
          [export_step] 0 false false.

Definition export_running_task : Task.t :=
  Task.set_steps [Step.set_in_progress true export_step] export_task.

Definition exported_world : World :=
  mkWorld {[ "export_cache.log" := File ("Export done" +:+ nl);
             "chip.aedt.lock" := File EmptyString ]} [] [].

(** A task whose analysis step was given no log file name. *)
Definition nameless_task : Task.t :=
  Task.mk "chip" "local" None (Some "chip")
          [Step.mk "sweep" "Sweep" false false "Analysis" false None None
                   None None (Some "sweep.sh") (Some "Setup1")
                   (Some "HFSSDesign1") None None None]
          0 false false.

(* ================================================================== *)
(** * Properties *)

(** Membership in a list of string literals. *)
Ltac not_in_literals :=
  repeat (apply not_elem_of_cons; split; [discriminate|]); apply not_elem_of_nil.
Ltac in_literals :=
  repeat first [ apply list_elem_of_here | apply list_elem_of_further ].

(* ------------------------------------------------------------------ *)
(** ** Strings *)

Lemma app_String (c : ascii) (s t : string) :
  String c s +:+ t = String c (s +:+ t).
Proof. reflexivity. Qed.

Lemma app_empty_l (s : string) : EmptyString +:+ s = s.
Proof. reflexivity. Qed.

Lemma app_empty_r (s : string) : s +:+ EmptyString = s.
Proof. induction s as [|c s IH]; [done|]. by rewrite app_String, IH. Qed.

Lemma app_assoc_s (s t u : string) : (s +:+ t) +:+ u = s +:+ (t +:+ u).
Proof. induction s as [|c s IH]; [done|]. by rewrite !app_String, IH. Qed.

(** Without a space left to read, the splitter emits no further word. *)
Lemma word_list_loop_no_space
    (tail : string) (word_list : list string) (temp_word : string) :
  has_char space tail = false ->
  string_to_word_list_loop tail word_list temp_word = word_list.
Proof.
  revert temp_word. induction tail as [|c tail IH]; intros temp_word H; [done|].
  simpl in *. apply orb_false_iff in H as [Hc Htail]. rewrite Hc. simpl. by apply IH.
Qed.

Lemma word_list_loop_app
    (pre tail : string) (word_list : list string) (temp_word : string) :
  has_char space tail = false ->
  string_to_word_list_loop (pre +:+ tail) word_list temp_word
  = string_to_word_list_loop pre word_list temp_word.
Proof.
  revert word_list temp_word.
  induction pre as [|c pre IH]; intros word_list temp_word H.
  - rewrite app_empty_l. by apply word_list_loop_no_space.
  - rewrite app_String. simpl. destruct (negb (Ascii.eqb c space)); by apply IH.
Qed.

(** The text after the last space of a string never becomes a word. *)
Lemma string_to_word_list_final_token (pre tail : string) :
  has_char space tail = false ->
  string_to_word_list (pre +:+ tail) = string_to_word_list pre.
Proof. apply word_list_loop_app. Qed.

Lemma has_char_app (c : ascii) (s t : string) :
  has_char c (s +:+ t) = has_char c s || has_char c t.
Proof.
  induction s as [|a s IH]; [done|].
  rewrite app_String. simpl. by rewrite IH, orb_assoc.
Qed.

Lemma report_line_acc (dw : bool) (words : list string) (acc : bool) :
  fold_left (fun report w =>
               if String.eqb w "[error]" then true
               else if String.eqb w "[warning]" && dw then true
               else report) words acc
  = acc || report_line dw words.
Proof.
  unfold report_line. revert acc.
  induction words as [|w words IH]; intros acc; simpl.
  - by rewrite orb_false_r.
  - rewrite IH. rewrite (IH (if String.eqb w "[error]" then _ else _)).
    destruct (String.eqb w "[error]"); [by rewrite orb_true_r|].
    destruct (String.eqb w "[warning]" && dw); [by rewrite orb_true_r|].
    by rewrite orb_false_l.
Qed.

(** A line is reported only for one of its words. *)
Lemma report_line_false (dw : bool) (words : list string) :
  (forall w, w ∈ words -> w <> "[error]" /\ w <> "[warning]") ->
  report_line dw words = false.
Proof.
  induction words as [|w words IH]; intros H; [done|].
  unfold report_line. simpl. rewrite report_line_acc.
  destruct (H w) as [He Hw]; [left|].
  apply String.eqb_neq in He, Hw. rewrite He, Hw. simpl.
  apply IH. intros w' Hin. apply H. by right.
Qed.

Example error_marker_followed_by_space_is_reported :
  report_line false (string_to_word_list ("[error] in setup" +:+ nl)) = true.
Proof. reflexivity. Qed.

(** C10. A log line whose marker ([[error]] or [[warning]]) is its final
    token, followed by no space (by the newline, or by nothing), is not
    reported by [detect_errors_from_log_file]: the iteration of the loop for
    that line writes nothing to the status sink, because the splitter only
    emits a word on a space and so drops the final token of the line. The
    words before the final token are assumed to hold no marker. *)
Theorem detect_errors_final_marker_unreported
    (lines : list string) (display_warnings : bool) (i : nat)
    (pre marker tail : string) (w : World) :
  lines !! i = Some (pre +:+ marker +:+ tail) ->
  marker ∈ ["[error]"; "[warning]"] ->
  has_char space tail = false ->
  (forall x, x ∈ string_to_word_list pre -> x <> "[error]" /\ x <> "[warning]") ->
  string_to_word_list (pre +:+ marker +:+ tail) = string_to_word_list pre
  /\ detect_errors_line lines display_warnings i w = (Val tt, w).
Proof.
  intros Hline Hmarker Htail Hpre.
  assert (Hwords : string_to_word_list (pre +:+ marker +:+ tail)
                   = string_to_word_list pre).
  { apply string_to_word_list_final_token. rewrite has_char_app, Htail.
    apply elem_of_cons in Hmarker as [->|Hmarker]; [done|].
    apply elem_of_cons in Hmarker as [->|Hmarker]; [done|].
    by apply elem_of_nil in Hmarker. }
  split; [exact Hwords|].
  unfold detect_errors_line, item, bind. rewrite Hline. simpl.
  rewrite Hwords. by rewrite (report_line_false _ _ Hpre).
Qed.

Lemma detect_errors_final_marker_unreported_witness :
  detect_errors_line ["mesh ok" +:+ nl; "setup [error]" +:+ nl] true 1
    (mkWorld ∅ [] [])
  = (Val tt, mkWorld ∅ [] []).
Proof.
  apply (detect_errors_final_marker_unreported
           ["mesh ok" +:+ nl; "setup [error]" +:+ nl] true 1
           "setup " "[error]" nl (mkWorld ∅ [] [])).
  - reflexivity.
  - in_literals.
  - reflexivity.
  - intros x Hx. vm_compute in Hx.
    apply elem_of_cons in Hx as [->|Hx]; [done|]. by apply elem_of_nil in Hx.
Defined.

(** On a log of two lines, the marker followed by a space is reported with
    the line after it; the same marker ending its line is not seen. *)
Example detect_errors_marker_inside_line :
  status (detect_errors_from_log_file "job.log" false
            (mkWorld {[ "job.log" :=
                          File ("[error] mesh failed" +:+ nl +:+ "abort" +:+ nl) ]}
                     [] [])).2
  = [Update "Checking for errors and warnings in: job.log";
     Update ("[error] mesh failed" +:+ nl);
     Update ("abort" +:+ nl)].
Proof. by vm_compute. Qed.

Example detect_errors_marker_ending_line :
  status (detect_errors_from_log_file "job.log" false
            (mkWorld {[ "job.log" :=
                          File ("mesh failed [error]" +:+ nl +:+ "abort" +:+ nl) ]}
                     [] [])).2
  = [Update "Checking for errors and warnings in: job.log"].
Proof. by vm_compute. Qed.

(* ------------------------------------------------------------------ *)
(** ** Substrings and lines *)

Lemma prefix_cons (a b : ascii) (s1 s2 : string) :
  String.prefix (String a s1) (String b s2)
  = if Ascii.eqb a b then String.prefix s1 s2 else false.
Proof.
  simpl. destruct (ascii_dec a b) as [->|Hne].
  - by rewrite Ascii.eqb_refl.
  - apply Ascii.eqb_neq in Hne. by rewrite Hne.
Qed.

Lemma prefix_empty_r (s : string) :
  s <> EmptyString -> String.prefix s EmptyString = false.
Proof. by destruct s. Qed.

Lemma prefix_app_iff (needle hay : string) :
  String.prefix needle hay = true <-> exists rest, hay = needle +:+ rest.
Proof.
  revert hay. induction needle as [|a needle IH]; intros hay.
  - destruct hay; simpl; split; eauto.
  - destruct hay as [|b hay].
    + simpl. split; [done|]. intros [rest H]. by rewrite app_String in H.
    + rewrite prefix_cons. destruct (Ascii.eqb a b) eqn:E.
      * apply Ascii.eqb_eq in E as ->. rewrite IH. split.
        -- intros [rest ->]. exists rest. by rewrite app_String.
        -- intros [rest H]. rewrite app_String in H. exists rest. congruence.
      * apply Ascii.eqb_neq in E. split; [done|].
        intros [rest H]. rewrite app_String in H. congruence.
Qed.

Lemma str_in_cons (needle : string) (c : ascii) (hay : string) :
  str_in needle (String c hay)
  = String.prefix needle (String c hay) || str_in needle hay.
Proof. cbn [str_in]. by destruct (String.prefix needle (String c hay)). Qed.

Lemma str_in_empty (needle : string) :
  str_in needle EmptyString = String.prefix needle EmptyString.
Proof. cbn [str_in]. by destruct (String.prefix needle EmptyString). Qed.

(** [str_in] is the substring test. *)
Lemma str_in_iff (needle hay : string) :
  str_in needle hay = true
  <-> exists before after, hay = before +:+ needle +:+ after.
Proof.
  induction hay as [|c hay IH].
  - rewrite str_in_empty, prefix_app_iff. split.
    + intros [rest H]. by exists EmptyString, rest.
    + intros ([|??] & after & H); [eauto|by rewrite app_String in H].
  - rewrite str_in_cons, orb_true_iff, IH, prefix_app_iff. split.
    + intros [[rest H]|(before & after & H)].
      * by exists EmptyString, rest.
      * exists (String c before), after. by rewrite app_String, H.
    + intros ([|b before] & after & H).
      * left. by exists after.
      * right. rewrite app_String in H. exists before, after. congruence.
Qed.

Lemma readlines_cons (c : ascii) (s : string) :
  readlines (String c s)
  = if Ascii.eqb c newline then String c EmptyString :: readlines s
    else match readlines s with
         | [] => [String c EmptyString]
         | l :: ls => String c l :: ls
         end.
Proof. reflexivity. Qed.

Lemma readlines_nil (s : string) : readlines s = [] -> s = EmptyString.
Proof.
  destruct s as [|c s]; [done|]. simpl.
  destruct (Ascii.eqb c newline); [done|]. by destruct (readlines s).
Qed.

(** A text without newline that starts the file starts its first line. *)
Lemma prefix_readlines (needle s : string) :
  needle <> EmptyString -> has_char newline needle = false ->
  String.prefix needle s
  = match readlines s with
    | [] => false
    | l :: _ => String.prefix needle l
    end.
Proof.
  revert needle. induction s as [|c s IH]; intros needle Hne Hnl.
  - by apply prefix_empty_r.
  - destruct needle as [|a needle]; [done|]. clear Hne.
    simpl in Hnl. apply orb_false_iff in Hnl as [Ha Hnl].
    rewrite readlines_cons. destruct (Ascii.eqb c newline) eqn:Ec.
    + apply Ascii.eqb_eq in Ec as ->. rewrite !prefix_cons. by rewrite Ha.
    + destruct (readlines s) as [|l ls] eqn:Hl.
      * by rewrite (readlines_nil s Hl).
      * rewrite !prefix_cons. destruct (Ascii.eqb a c); [|done].
        destruct needle as [|a' needle]; [by destruct s, l|].
        by rewrite (IH (String a' needle)).
Qed.

(** A text without newline occurs in a file exactly when it occurs in one
    of its lines. *)
Lemma str_in_readlines (needle s : string) :
  needle <> EmptyString -> has_char newline needle = false ->
  existsb (str_in needle) (readlines s) = str_in needle s.
Proof.
  intros Hne Hnl. induction s as [|c s IH].
  - cbn [readlines existsb]. by rewrite str_in_empty, prefix_empty_r.
  - rewrite str_in_cons, (prefix_readlines needle (String c s)) by done.
    rewrite readlines_cons. destruct (Ascii.eqb c newline) eqn:Ec.
    + cbn [existsb]. rewrite IH. apply Ascii.eqb_eq in Ec as ->.
      rewrite str_in_cons, str_in_empty, (prefix_empty_r needle Hne).
      by rewrite orb_false_r.
    + destruct (readlines s) as [|l ls] eqn:Hl.
      * rewrite (readlines_nil s Hl). cbn [existsb].
        rewrite str_in_cons, str_in_empty, (prefix_empty_r needle Hne).
        by rewrite !orb_false_r.
      * rewrite <- IH. cbn [existsb]. rewrite str_in_cons.
        by rewrite orb_assoc.
Qed.

Lemma lock_scan_existsb (lines : list string) (no_errors : bool) :
  fold_left (fun no_errors line =>
               if str_in error_syndrome line then true else no_errors)
            lines no_errors
  = no_errors || existsb (str_in error_syndrome) lines.
Proof.
  revert no_errors. induction lines as [|l lines IH]; intros no_errors.
  - by rewrite orb_false_r.
  - cbn [fold_left existsb]. rewrite IH.
    destruct (str_in error_syndrome l); [by rewrite orb_true_r|done].
Qed.

(** [find_lock_error_syndrome] answers whether the log file holds the
    lock-error text. *)
Lemma find_lock_error_syndrome_file (job_name content : string) (w : World) :
  fs w !! job_name = Some (File content) ->
  find_lock_error_syndrome job_name w = (Val (str_in error_syndrome content), w).
Proof.
  intros Hf. unfold find_lock_error_syndrome, bind, open_readlines, ret.
  rewrite Hf. rewrite lock_scan_existsb. simpl orb.
  by rewrite str_in_readlines.
Qed.

(* ------------------------------------------------------------------ *)
(** ** The job identifier *)

Lemma find_job_id_loop_no_marker
    (word_list : list string) (index : nat) (items : list string) (val : string) :
  "Job" ∉ items ->
  find_job_id_loop word_list index items val = Val val.
Proof.
  revert index. induction items as [|x items IH]; intros index H; [done|].
  simpl. apply not_elem_of_cons in H as [Hx Hitems].
  assert (String.eqb x "Job" = false) as -> by (apply String.eqb_neq; congruence).
  by apply IH.
Qed.

Lemma find_job_id_loop_cons
    (word_list : list string) (index : nat) (x : string) (rest : list string)
    (val : string) :
  find_job_id_loop word_list index (x :: rest) val
  = if String.eqb x "Job"
    then match word_list !! (index + 1)%nat with
         | None => Raise IndexError
         | Some w =>
             find_job_id_loop word_list (S index) rest
                              (digits_of (chars w) EmptyString)
         end
    else find_job_id_loop word_list (S index) rest val.
Proof. reflexivity. Qed.

Lemma find_job_id_loop_last_marker
    (seen l1 l2 : list string) (w val : string) :
  "Job" ∉ w :: l2 ->
  find_job_id_loop (seen ++ l1 ++ "Job" :: w :: l2) (length seen)
                   (l1 ++ "Job" :: w :: l2) val
  = Val (digits_of (chars w) EmptyString).
Proof.
  intros Hrest. revert seen val.
  induction l1 as [|x l1 IH]; intros seen val.
  - rewrite !app_nil_l, find_job_id_loop_cons.
    assert ((seen ++ "Job" :: w :: l2) !! (length seen + 1)%nat = Some w) as ->.
    { rewrite lookup_app_r by lia.
      by replace (length seen + 1 - length seen)%nat with 1%nat by lia. }
    replace (String.eqb "Job" "Job") with true by reflexivity.
    by apply find_job_id_loop_no_marker.
  - rewrite <- !app_comm_cons, find_job_id_loop_cons.
    assert (Hnext : exists y, (seen ++ x :: l1 ++ "Job" :: w :: l2)
                                !! (length seen + 1)%nat = Some y).
    { apply lookup_lt_is_Some. rewrite length_app. simpl.
      rewrite length_app. simpl. lia. }
    destruct Hnext as [y Hy].
    specialize (IH (seen ++ [x])).
    rewrite <- !app_assoc, length_app in IH. simpl in IH.
    replace (length seen + 1)%nat with (S (length seen)) in IH by lia.
    destruct (String.eqb x "Job").
    + rewrite Hy. apply IH.
    + apply IH.
Qed.

Example word_list_bsub :
  string_to_word_list "Job <1234> is submitted to queue <normal.4h>."
  = ["Job"; "<1234>"; "is"; "submitted"; "to"; "queue"].
Proof. reflexivity. Qed.

Example job_id_bsub :
  find_job_id_from_exec_output "Job <1234> is submitted to queue <normal.4h>."
  = Val "1234".
Proof. reflexivity. Qed.

Example job_id_marker_without_successor :
  find_job_id_from_exec_output "Job " = Raise IndexError.
Proof. reflexivity. Qed.

(** The inner loop keeps the characters of the word on which
    [str.isdigit] holds, in order. *)
Lemma digits_of_filter (cs : list string) (temp_s : string) :
  digits_of cs temp_s = temp_s +:+ text_of (List.filter str_isdigit cs).
Proof.
  revert temp_s. induction cs as [|c cs IH]; intros temp_s; simpl.
  - by rewrite app_empty_r.
  - destruct (str_isdigit c); rewrite IH; [|done].
    simpl. by rewrite app_assoc_s.
Qed.

(** C8, as the code has it. The parser cuts the scheduler output into its
    space-terminated words. When no word is the marker [Job], it returns the
    diagnostic string [no job id in: <output>]. When the marker occurs and
    its last occurrence is followed by another word, it returns the
    characters of that following word on which [str.isdigit] holds, in
    order: its decimal digits and the other digits of Unicode; this is the
    empty string when the word holds no digit. *)
Theorem find_job_id_from_exec_output_spec (output_string : string) :
  ("Job" ∉ string_to_word_list output_string ->
   find_job_id_from_exec_output output_string = Val (no_job_id output_string))
  /\ (forall (l1 : list string) (w : string) (l2 : list string),
        string_to_word_list output_string = l1 ++ "Job" :: w :: l2 ->
        "Job" ∉ w :: l2 ->
        find_job_id_from_exec_output output_string
        = Val (text_of (List.filter str_isdigit (chars w)))).
Proof.
  unfold find_job_id_from_exec_output. split.
  - intros H. by apply find_job_id_loop_no_marker.
  - intros l1 w l2 Hwords Hrest. rewrite Hwords.
    rewrite (find_job_id_loop_last_marker [] l1 l2 w _ Hrest).
    by rewrite digits_of_filter.
Qed.

Lemma find_job_id_from_exec_output_spec_witness :
  find_job_id_from_exec_output "bsub: queue closed "
  = Val (no_job_id "bsub: queue closed ")
  /\ find_job_id_from_exec_output "Job <1234> is submitted to queue <normal.4h>."
     = Val "1234".
Proof.
  split.
  - apply (proj1 (find_job_id_from_exec_output_spec "bsub: queue closed ")).
    vm_compute. not_in_literals.
  - apply (proj2 (find_job_id_from_exec_output_spec
                    "Job <1234> is submitted to queue <normal.4h>.")
                 [] "<1234>" ["is"; "submitted"; "to"; "queue"]).
    + reflexivity.
    + not_in_literals.
Defined.

(** A digit outside ASCII is kept as the decimal digits are. *)
Example job_id_superscript_digit :
  find_job_id_from_exec_output "Job <12²> x" = Val "12²".
Proof. by vm_compute. Qed.

(** C8, as the specification words it, fails: the output [Job abc ] holds
    no job identifier, and the parser returns the empty string, not the
    diagnostic string built from the raw output. *)
Lemma find_job_id_without_digits_counterexample :
  string_to_word_list "Job abc " = ["Job"; "abc"]
  /\ find_job_id_from_exec_output "Job abc " = Val ""
  /\ find_job_id_from_exec_output "Job abc " <> Val (no_job_id "Job abc ").
Proof. repeat split. discriminate. Qed.

(* ------------------------------------------------------------------ *)
(** ** Stale-artifact cleanup *)

(** One round of the loop removes the entry under [file_name], whatever it
    is, and does nothing when there is none. *)
Lemma clean_project_file_spec
    (sub_folder : option string) (file_name : string) (w : World) :
  exists w', clean_project_file sub_folder file_name w = (Val tt, w')
             /\ fs w' = delete file_name (fs w)
             /\ trace w' = trace w.
Proof.
  unfold clean_project_file, bind, os_path_isfile, os_path_isdir, os_remove,
    shutil_rmtree, write_update_in, write_update, modify, ret.
  destruct (fs w !! file_name) as [[content| |]|] eqn:Hf, sub_folder; simpl;
    repeat (rewrite Hf; simpl); rewrite ?lookup_delete_eq; eauto.
  all: eexists; split; [reflexivity|]; split; [|done]; by rewrite delete_id.
Qed.

Lemma clean_project_file_absent
    (sub_folder : option string) (file_name : string) (w : World) :
  fs w !! file_name = None ->
  clean_project_file sub_folder file_name w = (Val tt, w).
Proof.
  intros Hf.
  unfold clean_project_file, bind, os_path_isfile, os_path_isdir, ret.
  simpl. by repeat (rewrite Hf; simpl).
Qed.

Lemma clean_loop_spec
    (sub_folder : option string) (l : list string) (w : World) :
  exists w', for_each l (clean_project_file sub_folder) w = (Val tt, w')
             /\ (forall k, fs w' !! k
                           = if bool_decide (k ∈ l) then None else fs w !! k)
             /\ trace w' = trace w.
Proof.
  revert w. induction l as [|f l IH]; intros w.
  - exists w. by repeat split.
  - destruct (clean_project_file_spec sub_folder f w)
      as (w1 & Hrun1 & Hfs1 & Htr1).
    destruct (IH w1) as (w2 & Hrun2 & Hfs2 & Htr2).
    exists w2. simpl. unfold bind. rewrite Hrun1, Hrun2.
    split; [done|]. split; [|congruence].
    intros k. rewrite Hfs2, Hfs1.
    destruct (decide (k = f)) as [->|Hne].
    + rewrite lookup_delete_eq. rewrite (bool_decide_eq_true_2 (f ∈ f :: l)) by left.
      by destruct (bool_decide (f ∈ l)).
    + rewrite lookup_delete_ne by done.
      destruct (bool_decide (k ∈ l)) eqn:Hk.
      * apply bool_decide_eq_true_1 in Hk.
        by rewrite bool_decide_eq_true_2 by (by right).
      * apply bool_decide_eq_false_1 in Hk.
        rewrite bool_decide_eq_false_2; [done|].
        intros [?|?]%elem_of_cons; done.
Qed.

(** Each removal is guarded by an existence test: on a directory that holds
    none of the files, the cleanup changes nothing and writes nothing. *)
Lemma clean_loop_absent
    (sub_folder : option string) (l : list string) (w : World) :
  (forall f, f ∈ l -> fs w !! f = None) ->
  for_each l (clean_project_file sub_folder) w = (Val tt, w).
Proof.
  induction l as [|f l IH]; intros H; [done|].
  simpl. unfold bind. rewrite clean_project_file_absent by (apply H; left).
  apply IH. intros f' Hf'. apply H. by right.
Qed.

(** C9. Running [clean_project_files] a second time with the same arguments
    leaves the working directory as the first run left it; both runs return
    normally, and the second one, finding none of the files, removes nothing
    and reports nothing. *)
Theorem clean_project_files_idempotent
    (project_name : string) (clean_aedt_file clean_aedtresults : bool)
    (sub_folder : option string) (w : World) :
  let once :=
    clean_project_files project_name clean_aedt_file clean_aedtresults
      sub_folder w in
  let twice :=
    clean_project_files project_name clean_aedt_file clean_aedtresults
      sub_folder once.2 in
  once.1 = Val tt /\ twice = (Val tt, once.2) /\ fs twice.2 = fs once.2.
Proof.
  unfold clean_project_files.
  destruct (clean_loop_spec sub_folder
              (file_to_check project_name clean_aedt_file clean_aedtresults) w)
    as (w1 & Hrun & Hfs & _).
  assert (Hagain :
    for_each (file_to_check project_name clean_aedt_file clean_aedtresults)
             (clean_project_file sub_folder) w1 = (Val tt, w1)).
  { apply clean_loop_absent. intros f Hf. rewrite Hfs.
    by rewrite bool_decide_eq_true_2. }
  cbv zeta. rewrite Hrun. cbn [fst snd]. rewrite Hagain. done.
Qed.

Example clean_project_files_removes_lock :
  fs (clean_project_files "chip" false false None
        (mkWorld {[ "chip.aedt.lock" := File EmptyString;
                    "chip.aedt" := File "design" ]} [] [])).2
  = {[ "chip.aedt" := File "design" ]}.
Proof. by vm_compute. Qed.

(* ------------------------------------------------------------------ *)
(** ** The dispatcher *)

Section DispatcherProperties.

Variable run_process :
    string -> option string -> gmap string node -> gmap string node * string.

  (** C7. A script dispatched with the ['local'] backend (the address of the
      executable is required there) starts the external application exactly
      once, blocking until it returns: the trace grows by that single
      [Spawn] and by no [OpenW], so no batch file is written; the status
      sink is untouched; the identifier returned is the sentinel ["0"]. *)
Theorem execute_script_local
      (script_name aedt_file_name ansys_exec_address : string)
      (resources_requested : option SimulationResources)
      (name_bash_file job_log_name sub_folder : option string) (w : World) :
    let cmd :=
      "cmd /c" +:+ " " +:+ ansys_exec_address +:+ " " +:+
      "-features=beta -ng -runscriptandexit" +:+ " " +:+
      script_name +:+ " " +:+ aedt_file_name in
    let run :=
      execute_script run_process (Some script_name) aedt_file_name "local"
        (Some ansys_exec_address) resources_requested name_bash_file
        job_log_name sub_folder w in
    run.1 = Val "0"
    /\ trace run.2 = trace w ++ [Spawn cmd sub_folder]
    /\ status run.2 = status w
    /\ fs run.2 = (run_process cmd sub_folder (fs w)).1.
Proof. by repeat split. Qed.

  (** The configuration errors that the dispatcher does reject, each before
      any file is opened and any process started. *)
Lemma run_euler_job_conflicting_payload
      (aedt_file_name script_name : string)
      (resources_requested : option SimulationResources)
      (name_bash_file design_name setup_to_analyse job_log_name
         sub_folder : option string) (w : World) :
    is_Some setup_to_analyse \/ is_Some design_name ->
    run_euler_job run_process aedt_file_name resources_requested name_bash_file
                  (Some script_name) design_name setup_to_analyse job_log_name
                  sub_folder w
    = (Raise (Exception "Cannot run a script and analyse a setup simultaneously"),
       w).
Proof.
    intros H. unfold run_euler_job.
    assert (bool_decide (is_Some (Some script_name))
            && (bool_decide (is_Some setup_to_analyse)
                || bool_decide (is_Some design_name)) = true) as ->; [|done].
    rewrite bool_decide_eq_true_2 by eauto. simpl.
    apply orb_true_iff. destruct H; [left|right]; by apply bool_decide_eq_true_2.
Qed.

Lemma execute_script_unknown_backend
      (script_name : option string) (aedt_file_name exec_option : string)
      (ansys_exec_address : option string)
      (resources_requested : option SimulationResources)
      (name_bash_file job_log_name sub_folder : option string) (w : World) :
    exec_option <> "local" -> exec_option <> "euler" ->
    execute_script run_process script_name aedt_file_name exec_option
                   ansys_exec_address resources_requested name_bash_file
                   job_log_name sub_folder w
    = (Raise (Exception ("execution option: " +:+ exec_option
                         +:+ " not handled")),
       w).
Proof.
    intros Hl He. unfold execute_script.
    apply String.eqb_neq in Hl, He. by rewrite Hl, He.
Qed.

Lemma Step_init_unknown_kind
      (name display_name step_type : string) (bash_file_name : option string)
      (resources_requested : option SimulationResources)
      (move_to_log_file_dir : bool)
      (script_name sub_folder log_file_name design_name
         setup_to_analyse : option string)
      (func : option callable) (arg_list : option kwargs) :
    step_type ∉ ["Script"; "Analysis"; "Python"] ->
    Step.init name display_name step_type bash_file_name resources_requested
              move_to_log_file_dir script_name sub_folder log_file_name
              design_name setup_to_analyse func arg_list
    = Raise (Exception ("Step type: " +:+ step_type +:+ " not handled.")).
Proof. intros H. unfold Step.init. by rewrite bool_decide_eq_false_2. Qed.

  (** C4 fails on the code. [run_job], handed an execution backend that is
      neither ['local'] nor ['euler'], raises nothing: it returns [None] and
      leaves the world as it found it, where [execute_script] raises. *)
Theorem run_job_unknown_backend_not_rejected
      (setup_to_analyse : option string) (aedt_file_name : string)
      (design_name ansys_exec_address job_log_name : option string)
      (resources_requested : option SimulationResources)
      (bash_file_name sub_folder : option string) (w : World) :
    run_job run_process setup_to_analyse aedt_file_name "cloud" design_name
            ansys_exec_address job_log_name resources_requested bash_file_name
            sub_folder w
    = (Val None, w).
Proof. reflexivity. Qed.

End DispatcherProperties.

(** Through [execute_step], the analysis step of a task whose execution
    option is unknown is taken as dispatched, with nothing started. *)
Example unknown_backend_step_in_progress :
  execute_step idle_process splitext_root_plain (cloud_task, empty_world)
  = (Val tt,
     (Task.set_steps [Step.set_job_id None sweep_step] cloud_task,
      mkWorld ∅ [Update "Executing sweep"] [])).
Proof. by vm_compute. Qed.

(* ------------------------------------------------------------------ *)
(** ** Reasoning on monadic code *)

Lemma bind_ret {S A B} (a : A) (f : A -> M S B) (s : S) :
  bind (ret a) f s = f a s.
Proof. reflexivity. Qed.

Lemma bind_raise {S A B} (e : exn) (f : A -> M S B) (s : S) :
  bind (raise e) f s = (Raise e, s).
Proof. reflexivity. Qed.

Lemma bind_self {B} (f : Task.t -> M state B) (t : Task.t) (w : World) :
  bind self_ f (t, w) = f t (t, w).
Proof. reflexivity. Qed.

Lemma bind_val {S A B} (m : M S A) (f : A -> M S B) (s s1 : S) (a : A) :
  m s = (Val a, s1) -> bind m f s = f a s1.
Proof. intros H. unfold bind. by rewrite H. Qed.

Lemma bind_exn {S A B} (m : M S A) (f : A -> M S B) (s s1 : S) (e : exn) :
  m s = (Raise e, s1) -> bind m f s = (Raise e, s1).
Proof. intros H. unfold bind. by rewrite H. Qed.

Lemma io_run {A} (m : M World A) (t : Task.t) (w w1 : World) (r : result A) :
  m w = (r, w1) -> io m (t, w) = (r, (t, w1)).
Proof. intros H. unfold io. simpl. by rewrite H. Qed.

Section Stable.

Context {S : Type} (R : relation S) `{!PreOrder R}.

Lemma stable_ret {A} (a : A) : stable R (ret a).
Proof. intros s. reflexivity. Qed.

Lemma stable_raise {A} (e : exn) : stable R (@raise S A e).
Proof. intros s. reflexivity. Qed.

Lemma stable_not_none {A} (o : option A) : stable R (not_none o).
Proof. destruct o; [apply stable_ret | apply stable_raise]. Qed.

Lemma stable_bind {A B} (m : M S A) (f : A -> M S B) :
    stable R m -> (forall a, stable R (f a)) -> stable R (bind m f).
Proof.
    intros Hm Hf s. unfold bind. specialize (Hm s).
    destruct (m s) as [[a|e] s1]; simpl in *; [|done].
    etrans; [exact Hm|]. apply Hf.
Qed.

Lemma stable_try_catch (catches : exn -> bool) (m h : M S unit) :
    stable R m -> stable R h -> stable R (try_catch catches m h).
Proof.
    intros Hm Hh s. unfold try_catch. specialize (Hm s).
    destruct (m s) as [[a|e] s1]; simpl in *; [done|].
    destruct (catches e); [|done].
    etrans; [exact Hm|]. apply Hh.
Qed.

End Stable.

Section StableState.

Context (R : relation state) `{!PreOrder R}.
Hypothesis R_world : forall t w w', R (t, w) (t, w').

Lemma stable_io {A} (m : M World A) : stable R (io m).
Proof. intros [t w]. apply R_world. Qed.

Lemma stable_self : stable R self_.
Proof. intros s. reflexivity. Qed.

Lemma stable_modify_self (f : Task.t -> Task.t) :
    (forall t w, R (t, w) (f t, w)) -> stable R (modify_self f).
Proof. intros H [t w]. apply H. Qed.

End StableState.

(** One structural step on a goal [stable R m]. *)
Ltac stable_step R :=
  first
    [ apply (stable_bind R); [| intros ?]
    | apply (stable_ret R)
    | apply (stable_raise R)
    | apply (stable_not_none R)
    | apply (stable_self R)
    | apply (stable_try_catch R)
    | match goal with
      | |- stable _ (if ?b then _ else _) => destruct b
      | |- stable _ (match ?x with _ => _ end) => destruct x
      end ].

(* ------------------------------------------------------------------ *)
(** ** What a poll may change in a task *)

Global Instance step_evolves_preorder : PreOrder step_evolves.
Proof.
  split.
  - intros s. reflexivity.
  - intros s1 s2 s3 H1 H2. unfold step_evolves in *. congruence.
Qed.

Lemma frame_step_iterator (t t' : Task.t) :
  frame t t' -> Task.step_iterator t' = Task.step_iterator t.
Proof. intros [H _]. unfold controls in H. congruence. Qed.

Lemma frame_done (t t' : Task.t) : frame t t' -> Task.done t' = Task.done t.
Proof. intros [H _]. unfold controls in H. congruence. Qed.

Lemma frame_length (t t' : Task.t) :
  frame t t' -> length (Task.steps t') = length (Task.steps t).
Proof. intros (_ & H & _). symmetry. by eapply Forall2_length. Qed.

Global Instance frame_preorder : PreOrder frame.
Proof.
  split.
  - intros t. repeat split. reflexivity.
  - intros t1 t2 t3 H12 H23.
    pose proof (frame_step_iterator _ _ H12) as Hit.
    destruct H12 as (E1 & F1 & O1), H23 as (E2 & F2 & O2).
    repeat split.
    + congruence.
    + by etrans.
    + intros i Hi. rewrite O2, O1; congruence.
Qed.

Global Instance framed_preorder : PreOrder framed.
Proof.
  split.
  - intros s. unfold framed. reflexivity.
  - intros s1 s2 s3. unfold framed. apply transitivity.
Qed.

Lemma framed_world (t : Task.t) (w w' : World) : framed (t, w) (t, w').
Proof. unfold framed. reflexivity. Qed.

Lemma framed_set_current_step (f : Step.t -> Step.t) :
  (forall s, step_evolves s (f s)) ->
  stable framed (set_current_step f).
Proof.
  intros Hf. apply stable_modify_self. intros t w.
  unfold framed, frame. simpl. repeat split.
  - apply Forall2_alter_r; [reflexivity|]. intros x y _ _ Hxy. by etrans.
  - intros i Hi. by apply list_lookup_alter_ne.
Qed.

Lemma evolves_set_done (b : bool) (s : Step.t) : step_evolves s (Step.set_done b s).
Proof. reflexivity. Qed.
Lemma evolves_set_in_progress (b : bool) (s : Step.t) :
  step_evolves s (Step.set_in_progress b s).
Proof. reflexivity. Qed.
Lemma evolves_set_job_id (j : option string) (s : Step.t) :
  step_evolves s (Step.set_job_id j s).
Proof. reflexivity. Qed.

Ltac framed_step :=
  first
    [ apply framed_set_current_step;
      first [ apply evolves_set_done | apply evolves_set_in_progress
            | apply evolves_set_job_id ]
    | apply (stable_io framed framed_world)
    | stable_step framed ].

Section EngineProperties.

Variable run_process :
    string -> option string -> gmap string node -> gmap string node * string.
Variable splitext_root : string -> string.

  (** The three ways a poll can go, by the step under the cursor: no step
      there; a step already done or a Python step, after which [next_step]
      runs; any other step, where the task is only framed. *)
Lemma execute_step_footprint (t : Task.t) (w : World) :
    match Task.steps t !! Task.step_iterator t with
    | None =>
        execute_step run_process splitext_root (t, w)
        = (Raise IndexError, (t, w))
    | Some step =>
        if Step.done step then
          execute_step run_process splitext_root (t, w)
          = (Val tt, (Task.next_step t, w))
        else if String.eqb (Step.step_type step) "Python" then
          exists w',
            execute_step run_process splitext_root (t, w)
            = (Val tt, (Task.next_step t, w'))
        else frame t (execute_step run_process splitext_root (t, w)).2.1
    end.
Proof.
    unfold execute_step. rewrite bind_self.
    destruct (Task.steps t !! Task.step_iterator t) as [step|] eqn:Hstep;
      [|done].
    rewrite bind_ret.
    destruct (Step.done step) eqn:Hdone; [done|].
    destruct (String.eqb (Step.step_type step) "Python") eqn:Hpy.
    - unfold bind, io, try_catch, write_update, modify, modify_self. simpl.
      destruct (call_func step _) as [[[]|e] w1]; simpl; eauto.
    - lazymatch goal with
      | |- frame t (?m (t, w)).2.1 =>
          cut (stable framed m); [intros Hst; exact (Hst (t, w))|]
      end.
      repeat framed_step.
Qed.

Lemma next_step_step_iterator (t : Task.t) :
  (Task.step_iterator t <= Task.step_iterator (Task.next_step t))%nat.
Proof.
  unfold Task.next_step.
  destruct (Task.step_iterator t + 1 =? length (Task.steps t))%nat; simpl; lia.
Qed.

Lemma next_step_steps (t : Task.t) :
  Task.steps (Task.next_step t) = Task.steps t.
Proof. unfold Task.next_step. by destruct (_ =? _)%nat. Qed.

Lemma execute_step_step_iterator (s : state) :
  (Task.step_iterator s.1
   <= Task.step_iterator (execute_step run_process splitext_root s).2.1)%nat.
Proof.
  destruct s as [t w]. pose proof (execute_step_footprint t w) as H.
  destruct (Task.steps t !! Task.step_iterator t) as [step|].
  - destruct (Step.done step).
    + rewrite H. apply next_step_step_iterator.
    + destruct (String.eqb (Step.step_type step) "Python").
      * destruct H as [w' ->]. apply next_step_step_iterator.
      * apply frame_step_iterator in H. simpl in *. lia.
  - rewrite H. done.
Qed.

Lemma polls_step_iterator (envs : list (World -> World)) (s : state) :
  (Task.step_iterator s.1
   <= Task.step_iterator (polls run_process splitext_root envs s).1)%nat.
Proof.
  revert s. induction envs as [|env envs IH]; intros s; simpl; [done|].
  etrans; [apply execute_step_step_iterator|]. apply (IH (_, _)).
Qed.

Lemma polls_app (envs1 envs2 : list (World -> World)) (s : state) :
  polls run_process splitext_root (envs1 ++ envs2) s
  = polls run_process splitext_root envs2
      (polls run_process splitext_root envs1 s).
Proof.
  revert s. induction envs1 as [|env envs1 IH]; intros s; simpl; [done|].
  apply IH.
Qed.

(** C6. No call to [execute_step] decreases [step_iterator], whatever the
    call finds in the world and however it ends; hence along any sequence
    of calls, with the world changing freely between them, the cursor at a
    later point is never below the cursor at an earlier point. *)
Theorem step_iterator_never_decreases
    (s : state) (earlier later : list (World -> World)) :
  (Task.step_iterator s.1
   <= Task.step_iterator (execute_step run_process splitext_root s).2.1)%nat
  /\ (Task.step_iterator (polls run_process splitext_root earlier s).1
      <= Task.step_iterator
           (polls run_process splitext_root (earlier ++ later) s).1)%nat.
Proof.
  split; [apply execute_step_step_iterator|].
  rewrite polls_app. apply polls_step_iterator.
Qed.

(** C1, as the code has it. After a call, [done] is true exactly when it
    was true before or the call ran [next_step] with the cursor on the last
    step ([step_iterator + 1 = len(steps)]), which happens when that step
    is already done or is a Python step. The cursor then stays where it is:
    a call either keeps the cursor or moves it one step forward to a
    position that still addresses a step, never past the last one. *)
Theorem task_done_exactly_on_last_step (t : Task.t) (w : World) :
  let t' := (execute_step run_process splitext_root (t, w)).2.1 in
  (Task.done t' = true <->
   Task.done t = true
   \/ exists step,
        Task.steps t !! Task.step_iterator t = Some step
        /\ (Task.step_iterator t + 1)%nat = length (Task.steps t)
        /\ (Step.done step = true \/ Step.step_type step = "Python"))
  /\ (Task.step_iterator t' = Task.step_iterator t
      \/ (Task.done t' = Task.done t
          /\ Task.step_iterator t' = (Task.step_iterator t + 1)%nat
          /\ (Task.step_iterator t' < length (Task.steps t'))%nat)).
Proof.
  cbv zeta. pose proof (execute_step_footprint t w) as H.
  assert (Hnext : forall step,
    Task.steps t !! Task.step_iterator t = Some step ->
    (Task.done (Task.next_step t) = true <->
     Task.done t = true
     \/ (Task.step_iterator t + 1)%nat = length (Task.steps t))
    /\ (Task.step_iterator (Task.next_step t) = Task.step_iterator t
        \/ (Task.done (Task.next_step t) = Task.done t
            /\ Task.step_iterator (Task.next_step t)
               = (Task.step_iterator t + 1)%nat
            /\ (Task.step_iterator (Task.next_step t)
                < length (Task.steps (Task.next_step t)))%nat))).
  { intros step Hstep. apply lookup_lt_Some in Hstep. unfold Task.next_step.
    destruct (Task.step_iterator t + 1 =? length (Task.steps t))%nat eqn:E;
      simpl.
    - apply Nat.eqb_eq in E. split; [|by left]. split; [by right|done].
    - apply Nat.eqb_neq in E. split; [|right; repeat split; lia].
      split; [by left|]. intros [?|?]; [done|lia]. }
  destruct (Task.steps t !! Task.step_iterator t) as [step|] eqn:Hstep.
  - specialize (Hnext step eq_refl).
    destruct (Step.done step) eqn:Hdone;
      [|destruct (String.eqb (Step.step_type step) "Python") eqn:Hpy].
    + rewrite H. simpl. destruct Hnext as [Hd Hc]. split; [|exact Hc].
      rewrite Hd. split; [|intros [?|(? & _ & ? & _)]; [by left|by right]].
      intros [?|?]; [by left|right; eauto].
    + destruct H as [w' ->]. simpl. destruct Hnext as [Hd Hc].
      split; [|exact Hc]. apply String.eqb_eq in Hpy.
      rewrite Hd. split; [|intros [?|(? & _ & ? & _)]; [by left|by right]].
      intros [?|?]; [by left|right; eauto].
    + split; [|left; by apply frame_step_iterator].
      rewrite (frame_done _ _ H). split; [by left|].
      apply String.eqb_neq in Hpy.
      intros [?|(step' & ? & _ & [?|?])]; [done|congruence..].
  - rewrite H. simpl. split; [|by left]. split; [by left|].
    intros [?|(step' & ? & _)]; [done|congruence].
Qed.

(** *** Stepping through a poll *)

Lemma bind_io_val {A B} (m : M World A) (k : A -> M state B)
    (t : Task.t) (w w1 : World) (a : A) :
  m w = (Val a, w1) -> bind (io m) k (t, w) = k a (t, w1).
Proof. intros H. apply bind_val. by apply io_run. Qed.

Lemma bind_io_exn {A B} (m : M World A) (k : A -> M state B)
    (t : Task.t) (w w1 : World) (e : exn) :
  m w = (Raise e, w1) -> bind (io m) k (t, w) = (Raise e, (t, w1)).
Proof. intros H. apply bind_exn. by apply io_run. Qed.

(** The two statements that compute [log_file_name] and join it to the
    root path. *)
Lemma log_file_name_resolved {B} (step : Step.t) (k : string -> M state B) :
  bind (if String.eqb (Step.step_type step) "Script"
        then bind (not_none (Step.script_name step))
                  (fun script_name =>
                     ret (Some (splitext_root script_name +:+ ".log")))
        else ret (Step.log_file_name step))
       (fun log_file_name => bind (not_none log_file_name) k)
  = bind (not_none (step_log_file_name splitext_root step)) k.
Proof.
  unfold step_log_file_name.
  destruct (String.eqb (Step.step_type step) "Script"); [|done].
  by destruct (Step.script_name step).
Qed.

Global Instance keeps_done_preorder : PreOrder keeps_done.
Proof.
  split.
  - by intros s.
  - intros s1 s2 s3 [H1 H1'] [H2 H2']. split; [congruence|].
    rewrite <- H1'. rewrite H1 in H2'. exact H2'.
Qed.

Lemma keeps_done_world (t : Task.t) (w w' : World) : keeps_done (t, w) (t, w').
Proof. done. Qed.

Lemma keeps_done_set_current_step (f : Step.t -> Step.t) :
  (forall s, Step.done (f s) = Step.done s) ->
  stable keeps_done (set_current_step f).
Proof.
  intros Hf. apply stable_modify_self. intros t w. split; [done|]. simpl.
  rewrite list_lookup_alter_eq.
  destruct (Task.steps t !! Task.step_iterator t); simpl; [|done].
  by rewrite Hf.
Qed.

Ltac keeps_done_step :=
  first
    [ apply keeps_done_set_current_step; reflexivity
    | apply (stable_io keeps_done keeps_done_world)
    | stable_step keeps_done ].

(** C3. On the cluster backend (['euler']) a poll marks the step under
    the cursor done only if that step was dispatched, its log file exists
    and does not hold the lock-error text, and the scheduler report
    [lsf.o<job_id>] exists in the working directory. So when the report is
    absent the step stays not done, however complete the log looks. *)
Theorem cluster_step_done_only_with_report
    (t : Task.t) (w : World) (step step' : Step.t) :
  Task.exec_option t = "euler" ->
  Task.steps t !! Task.step_iterator t = Some step ->
  Step.done step = false ->
  Task.steps (execute_step run_process splitext_root (t, w)).2.1
    !! Task.step_iterator t = Some step' ->
  Step.done step' = true ->
  Step.in_progress step = true
  /\ exists log content job_id,
       step_log_file_name splitext_root step = Some log
       /\ fs w !! log = Some (File content)
       /\ str_in error_syndrome content = false
       /\ Step.job_id step = Some job_id
       /\ is_Some (fs w !! ("lsf.o" +:+ job_id)).
Proof.
  intros Heuler Hstep Hdone Hstep' Hdone'.
  (* the flag is still false wherever the poll leaves the task as it was *)
  assert (Hsame :
    (execute_step run_process splitext_root (t, w)).2.1 = t -> False).
  { intros E. rewrite E in Hstep'. congruence. }
  assert (Hkeeps :
    keeps_done (t, w) (execute_step run_process splitext_root (t, w)).2
    -> False).
  { intros [_ E]. simpl in E. rewrite Hstep, Hstep' in E. simpl in E.
    congruence. }
  destruct (String.eqb (Step.step_type step) "Python") eqn:Hpy.
  { pose proof (execute_step_footprint t w) as Hfoot.
    rewrite Hstep, Hdone, Hpy in Hfoot. destruct Hfoot as [w' E].
    rewrite E in Hstep'. simpl in Hstep'. rewrite next_step_steps in Hstep'.
    congruence. }
  revert Hstep' Hsame Hkeeps. unfold execute_step.
  rewrite bind_self, Hstep, bind_ret, Hdone, Hpy, log_file_name_resolved.
  destruct (step_log_file_name splitext_root step) as [log|] eqn:Hlog;
    [|intros _ Hsame _; by destruct Hsame].
  cbn [not_none]. rewrite bind_ret.
  destruct (Step.in_progress step) eqn:Hprogress; cbn [negb].
  2:{ intros _ _ Hkeeps. exfalso. apply Hkeeps.
      lazymatch goal with
      | |- keeps_done (t, w) (?m (t, w)).2 =>
          cut (stable keeps_done m); [intros Hst; exact (Hst (t, w))|]
      end.
      repeat keeps_done_step. }
  intros H1 H2 H3. split; [done|]. revert H1 H2 H3.
  rewrite (bind_io_val (os_path_exists log) _ t w w
             (bool_decide (is_Some (fs w !! log)))) by done.
  destruct (fs w !! log) as [[content| |]|] eqn:Hfile.
  - rewrite bool_decide_eq_true_2 by eauto.
    rewrite (bind_io_val _ _ t w w _ (find_lock_error_syndrome_file _ _ _ Hfile)).
    destruct (str_in error_syndrome content) eqn:Hlock; cbn [negb].
    + intros _ _ Hkeeps. exfalso. apply Hkeeps.
      lazymatch goal with
      | |- keeps_done (t, w) (?m (t, w)).2 =>
          cut (stable keeps_done m); [intros Hst; exact (Hst (t, w))|]
      end.
      repeat keeps_done_step.
    + rewrite Heuler. change (String.eqb "euler" "local") with false. cbv iota.
      destruct (Step.job_id step) as [job_id|] eqn:Hjob;
        [|intros _ Hsame _; by destruct Hsame].
      cbn [not_none]. rewrite bind_ret.
      rewrite (bind_io_val (os_path_exists ("lsf.o" +:+ job_id)) _ t w w
                 (bool_decide (is_Some (fs w !! ("lsf.o" +:+ job_id)))))
        by done.
      destruct (fs w !! ("lsf.o" +:+ job_id)) as [report|] eqn:Hreport.
      * intros _ _ _. exists log, content, job_id. eauto.
      * rewrite bool_decide_eq_false_2 by (by intros [? ?]).
        intros _ Hsame _. by destruct Hsame.
  - rewrite bool_decide_eq_true_2 by eauto.
    rewrite (bind_io_exn (find_lock_error_syndrome log) _ t w w
               UnicodeDecodeError).
    + intros _ Hsame _. by destruct Hsame.
    + unfold find_lock_error_syndrome, bind, open_readlines. by rewrite Hfile.
  - rewrite bool_decide_eq_true_2 by eauto.
    rewrite (bind_io_exn (find_lock_error_syndrome log) _ t w w IsADirectoryError).
    + intros _ Hsame _. by destruct Hsame.
    + unfold find_lock_error_syndrome, bind, open_readlines. by rewrite Hfile.
  - rewrite bool_decide_eq_false_2 by (by intros [? ?]).
    intros _ Hsame _. by destruct Hsame.
Qed.


End EngineProperties.

(* ------------------------------------------------------------------ *)
(** ** Python steps *)

Example plot_task_built :
  Task.add_python_step "plot_optimization_results_chip" "Plot Opti"
    failing_callable []
    (Task.init "chip" "local" (Some "chip") (Some "ansysedt.exe") false)
  = Val plot_task.
Proof. reflexivity. Qed.

(** Whatever its callable does, a Python step is run, its failure is
    reported and swallowed, and [next_step] follows; the list of steps is
    not touched. *)
Lemma execute_step_python
    (run_process :
       string -> option string -> gmap string node -> gmap string node * string)
    (splitext_root : string -> string)
    (t : Task.t) (w : World) (step : Step.t) :
  Task.steps t !! Task.step_iterator t = Some step ->
  Step.done step = false ->
  Step.step_type step = "Python" ->
  exists w',
    execute_step run_process splitext_root (t, w)
    = (Val tt, (Task.next_step t, w'))
    /\ Task.steps (Task.next_step t) = Task.steps t.
Proof.
  intros Hstep Hdone Hpy.
  pose proof (execute_step_footprint run_process splitext_root t w) as H.
  rewrite Hstep, Hdone, Hpy in H. destruct H as [w' H].
  exists w'. split; [exact H|].
  unfold Task.next_step. by destruct (_ =? _)%nat.
Qed.

(** C5 fails on the code. The first poll of [report_task] runs the failing
    callable of its Python step, reports the failure and moves the cursor
    to the next step, but the step is not marked done: its flag is still
    false and [report_state] shows it as [X]. *)
Theorem python_step_left_not_done :
  execute_step idle_process splitext_root_plain (report_task, empty_world)
  = (Val tt,
     (Task.set_step_iterator 1 report_task,
      mkWorld ∅
        [Update "Executing python step: plot_optimization_results_chip";
         Update "Error for optimization plotting"] []))
  /\ Step.done <$> Task.steps (Task.set_step_iterator 1 report_task)
     = [false; false]
  /\ Task.report_state (Task.set_step_iterator 1 report_task)
     = "chip|Plot Opti|X|Export|X|".
Proof. by vm_compute. Qed.

(** C1, as the specification words it, fails: after one poll of
    [plot_task] the task is done, while the cursor still addresses the last
    step, not a position past it, and that step is not done. *)
Lemma task_done_last_step_not_done_counterexample :
  Task.done plot_task = false
  /\ Task.done
       (execute_step idle_process splitext_root_plain
          (plot_task, empty_world)).2.1 = true
  /\ Task.step_iterator
       (execute_step idle_process splitext_root_plain
          (plot_task, empty_world)).2.1 = 0%nat
  /\ Step.done <$>
       Task.steps (execute_step idle_process splitext_root_plain
                     (plot_task, empty_world)).2.1
     = [false].
Proof. by vm_compute. Qed.

(* ------------------------------------------------------------------ *)
(** ** Polling a dispatched step *)

Lemma last_char_app (s t : string) :
  t <> EmptyString -> last_char (s +:+ t) = last_char t.
Proof.
  intros Ht. induction s as [|c s IH]; [done|].
  rewrite app_String. cbn [last_char]. rewrite IH.
  destruct t; [done|]. cbn [last_char]. by destruct (last_char t).
Qed.

(** The log of a script step ends in [.log]; no companion file does. *)
Lemma script_log_not_companion
    (stem project_name : string) (clean_aedt_file clean_aedtresults : bool) :
  stem +:+ ".log" ∉ file_to_check project_name clean_aedt_file clean_aedtresults.
Proof.
  intros Hin. unfold file_to_check in Hin.
  assert (Hlast : forall suffix,
            suffix <> EmptyString ->
            last_char suffix <> Some "g"%char ->
            stem +:+ ".log" <> project_name +:+ suffix).
  { intros suffix Hne Hg E. apply (f_equal last_char) in E.
    rewrite !last_char_app in E by done. by rewrite <- E in Hg. }
  repeat (apply elem_of_cons in Hin as [Hin|Hin];
          [by apply Hlast in Hin|]).
  destruct clean_aedt_file, clean_aedtresults; simpl in Hin;
    repeat (apply elem_of_cons in Hin as [Hin|Hin];
            [by apply Hlast in Hin|]);
    by apply elem_of_nil in Hin.
Qed.

Lemma cluster_step_done_only_with_report_witness :
  Step.in_progress sweep_step = true
  /\ exists log content job_id,
       step_log_file_name splitext_root_plain sweep_step = Some log
       /\ fs finished_world !! log = Some (File content)
       /\ str_in error_syndrome content = false
       /\ Step.job_id sweep_step = Some job_id
       /\ is_Some (fs finished_world !! ("lsf.o" +:+ job_id)).
Proof.
  apply (cluster_step_done_only_with_report bsub_process splitext_root_plain
           sweep_task finished_world sweep_step
           (Step.set_done true sweep_step)).
  - reflexivity.
  - reflexivity.
  - reflexivity.
  - vm_compute. reflexivity.
  - reflexivity.
Defined.


(** When the caller names the log of an analysis step after a companion
    file, the cleanup removes it and [os.remove] then raises before
    [in_progress] is cleared. *)
Example lock_error_log_among_companions :
  let step :=
    Step.mk "sweep" "Sweep" false true "Analysis" false None None None
            (Some "chip.aedt.lock") None (Some "Setup1")
            (Some "HFSSDesign1") (Some "1234") None None in
  let run :=
    execute_step bsub_process splitext_root_plain
      (Task.set_steps [step] sweep_task,
       mkWorld {[ "chip.aedt.lock" := File error_syndrome ]} [] []) in
  run.1 = Raise FileNotFoundError
  /\ Step.in_progress <$> Task.steps run.2.1 = [true].
Proof. by vm_compute. Qed.


(* ================================================================== *)
(** * Further properties of the code *)

(* ------------------------------------------------------------------ *)
(** ** Text helpers of the script writer *)

Lemma vbs_array_loop_middle {A}
    (str_ : A -> string) (pre mid post : list A) (str_array : string) :
  vbs_array_loop str_ (pre ++ mid ++ post) (seq (length pre) (length mid))
                 str_array
  = Val (str_array
         +:+ foldr (fun x r => dquote +:+ str_ x +:+ dquote +:+ "," +:+ r)
                   EmptyString mid).
Proof.
  revert pre str_array. induction mid as [|x mid IH]; intros pre str_array.
  - simpl. by rewrite app_empty_r.
  - cbn [length seq vbs_array_loop foldr]. rewrite <- app_comm_cons.
    rewrite list_lookup_middle by done.
    specialize (IH (pre ++ [x])). rewrite length_app in IH. simpl in IH.
    rewrite <- !app_assoc in IH. simpl in IH.
    replace (length pre + 1)%nat with (S (length pre)) in IH by lia.
    rewrite IH. by rewrite !app_assoc_s.
Qed.

Lemma concat_comma_snoc (quoted : list string) (q : string) :
  foldr (fun x r => x +:+ "," +:+ r) EmptyString quoted +:+ q
  = String.concat "," (quoted ++ [q]).
Proof.
  induction quoted as [|x quoted IH]; [done|].
  cbn [foldr app]. rewrite !app_assoc_s, IH.
  by destruct quoted.
Qed.

(** [convert_py_list_to_vbs_array] writes the elements between double
    quotes, separated by commas, inside [Array(...)]; on the empty list it
    raises [IndexError], from [w[-1]]. *)
Theorem convert_py_list_to_vbs_array_spec {A} (str_ : A -> string) (w : list A) :
  convert_py_list_to_vbs_array str_ w
  = match w with
    | [] => Raise IndexError
    | _ :: _ =>
        Val ("Array("
             +:+ String.concat ","
                   (map (fun x => dquote +:+ str_ x +:+ dquote) w)
             +:+ ")")
    end.
Proof.
  destruct w as [|x0 w0]; [done|].
  destruct (exists_last (l := x0 :: w0)) as (init & x & Hw); [done|].
  rewrite Hw. clear Hw x0 w0.
  unfold convert_py_list_to_vbs_array.
  rewrite length_app. simpl length.
  replace (length init + 1 - 1)%nat with (length init) by lia.
  pose proof (vbs_array_loop_middle str_ [] init [x] "Array(") as Hloop.
  simpl in Hloop. rewrite Hloop. rewrite last_snoc.
  destruct (init ++ [x]) eqn:E; [by destruct init|]. rewrite <- E.
  f_equal. rewrite map_app. simpl map.
  rewrite <- concat_comma_snoc.
  assert (foldr (fun x r => dquote +:+ str_ x +:+ dquote +:+ "," +:+ r)
                EmptyString init
          = foldr (fun x r => x +:+ "," +:+ r) EmptyString
                  (map (fun x => dquote +:+ str_ x +:+ dquote) init)) as ->.
  { clear. induction init as [|y init IH]; [done|].
    simpl. rewrite IH. by rewrite !app_assoc_s. }
  by rewrite !app_assoc_s.
Qed.

Lemma get_first_word_loop_none (line res_char : string) :
  get_first_word_loop line res_char = None <-> has_char tab line = false.
Proof.
  revert res_char. induction line as [|c line IH]; intros res_char; [done|].
  simpl. destruct (Ascii.eqb c tab); simpl; [done|]. apply IH.
Qed.

Lemma get_first_word_loop_field (w rest res_char : string) :
  has_char tab w = false ->
  get_first_word_loop (w +:+ String tab rest) res_char = Some (res_char +:+ w).
Proof.
  revert res_char. induction w as [|c w IH]; intros res_char H.
  - simpl. by rewrite app_empty_r.
  - simpl in H. apply orb_false_iff in H as [Hc Hw].
    rewrite app_String. simpl. rewrite Hc. simpl.
    rewrite IH by done. by rewrite app_assoc_s.
Qed.

(** [get_first_word] gives the text before the first tabulation, and
    [None] for a line that holds no tabulation. *)
Theorem get_first_word_spec (line : string) :
  (get_first_word line = None <-> has_char tab line = false)
  /\ (forall w rest,
        has_char tab w = false ->
        line = w +:+ String tab rest ->
        get_first_word line = Some w).
Proof.
  split; [apply get_first_word_loop_none|].
  intros w rest Hw ->. unfold get_first_word.
  by rewrite get_first_word_loop_field.
Qed.

Lemma get_first_word_spec_witness :
  get_first_word ("gap" +:+ String tab "12um") = Some "gap".
Proof.
  apply (proj2 (get_first_word_spec ("gap" +:+ String tab "12um"))
           "gap" "12um").
  - reflexivity.
  - reflexivity.
Defined.

Lemma first_words_loop_middle
    (pre mid : list string) (variables : list (option string)) :
  pre <> [] ->
  first_words_loop (pre ++ mid) (seq (length pre - 1) (length mid)) variables
  = Val (variables ++ map get_first_word mid).
Proof.
  revert pre variables.
  induction mid as [|line mid IH]; intros pre variables Hpre.
  - simpl. by rewrite app_nil_r.
  - cbn [length seq first_words_loop map].
    assert (Hlen : (0 < length pre)%nat) by (destruct pre; [done|simpl; lia]).
    replace (length pre - 1 + 1)%nat with (length pre) by lia.
    rewrite list_lookup_middle by done.
    specialize (IH (pre ++ [line]) (variables ++ [get_first_word line])).
    rewrite length_app in IH. simpl in IH. rewrite <- !app_assoc in IH.
    simpl in IH.
    replace (length pre + 1 - 1)%nat with (S (length pre - 1)) in IH by lia.
    rewrite IH; [done|]. by destruct pre.
Qed.

(** [get_variable_names] and [get_design_properties_from_text_file] skip
    the first line and give the first field of every other line, [None]
    where the line has no tabulation; they raise nothing on a list of
    lines, and the second one raises only for want of a file that reads
    as text. *)
Theorem get_design_properties_spec (text_file_name : string) (w : World) :
  (forall lines,
     get_variable_names lines = Val (map get_first_word (drop 1 lines)))
  /\ get_design_properties_from_text_file text_file_name w
     = match fs w !! text_file_name with
       | Some (File content) =>
           (Val (map get_first_word (drop 1 (readlines content))), w)
       | Some Undecodable => (Raise UnicodeDecodeError, w)
       | Some Dir => (Raise IsADirectoryError, w)
       | None => (Raise FileNotFoundError, w)
       end.
Proof.
  assert (Hloop : forall lines,
    first_words_loop lines (seq 0 (length lines - 1)) []
    = Val (map get_first_word (drop 1 lines))).
  { intros [|header lines]; [done|].
    simpl length. replace (S (length lines) - 1)%nat with (length lines) by lia.
    apply (first_words_loop_middle [header] lines []). done. }
  split; [exact Hloop|].
  unfold get_design_properties_from_text_file, bind, open_readlines, of_result.
  destruct (fs w !! text_file_name) as [[content| |]|]; [|done..].
  by rewrite Hloop.
Qed.

Lemma last_char_cons (c : ascii) (s : string) :
  exists c1, last_char (String c s) = Some c1.
Proof.
  revert c. induction s as [|a s IH]; intros c; [by exists c|].
  destruct (IH a) as [c1 H]. exists c1.
  change (last_char (String c (String a s)))
    with (match last_char (String a s) with None => Some c | o => o end).
  by rewrite H.
Qed.

Lemma check_is_vbs_string_cases (vbs_string : string) :
  (check_is_vbs_string vbs_string = Raise IndexError
   <-> vbs_string = EmptyString)
  /\ (check_is_vbs_string vbs_string = Val true
      <-> first_char vbs_string = Some "034"%char
          /\ last_char vbs_string = Some "034"%char).
Proof.
  split.
  - destruct vbs_string as [|c s]; [done|].
    unfold check_is_vbs_string. cbn [first_char].
    destruct (last_char_cons c s) as [c1 ->].
    destruct (Ascii.eqb c "034"), (Ascii.eqb c1 "034"); simpl; split; done.
  - destruct vbs_string as [|c s]; [split; [done|by intros [? _]]|].
    unfold check_is_vbs_string. cbn [first_char].
    destruct (last_char_cons c s) as [c1 ->].
    destruct (Ascii.eqb c "034") eqn:E0, (Ascii.eqb c1 "034") eqn:E1; simpl.
    + apply Ascii.eqb_eq in E0, E1. by subst.
    + apply Ascii.eqb_neq in E1. split; [done|]. intros [_ ?]. congruence.
    + apply Ascii.eqb_neq in E0. split; [done|]. intros [? _]. congruence.
    + apply Ascii.eqb_neq in E0. split; [done|]. intros [? _]. congruence.
Qed.

(** [check_is_vbs_string] raises [IndexError] on the empty string and on no
    other; it answers [True] exactly for a text whose first and last
    characters are double quotes, which a lone double quote is. *)
Theorem check_is_vbs_string_spec (vbs_string : string) :
  (check_is_vbs_string vbs_string = Raise IndexError
   <-> vbs_string = EmptyString)
  /\ (check_is_vbs_string vbs_string = Val true
      <-> first_char vbs_string = Some "034"%char
          /\ last_char vbs_string = Some "034"%char)
  /\ check_is_vbs_string dquote = Val true.
Proof.
  destruct (check_is_vbs_string_cases vbs_string) as [Hraise Htrue].
  split; [exact Hraise|]. split; [exact Htrue|reflexivity].
Qed.

Lemma variable_name_loop_all (name variable_name : string) :
  has_char lparen name = false ->
  variable_name_loop name variable_name = variable_name +:+ name.
Proof.
  revert variable_name. induction name as [|c name IH]; intros acc H.
  - simpl. by rewrite app_empty_r.
  - simpl in H. apply orb_false_iff in H as [Hc Hname].
    simpl. rewrite Hc. simpl. rewrite IH by done. by rewrite app_assoc_s.
Qed.

Lemma variable_name_loop_paren (name index variable_name : string) :
  has_char lparen name = false ->
  variable_name_loop (name +:+ String lparen index) variable_name
  = variable_name +:+ name.
Proof.
  revert variable_name. induction name as [|c name IH]; intros acc H.
  - simpl. by rewrite app_empty_r.
  - simpl in H. apply orb_false_iff in H as [Hc Hname].
    rewrite app_String. simpl. rewrite Hc. simpl.
    rewrite IH by done. by rewrite app_assoc_s.
Qed.

(** [variable_in_list] looks up the text before the first opening
    parenthesis: a name and an indexed access to it are answered alike. *)
Theorem variable_in_list_spec
    (name index : string) (variable_list : list string) :
  has_char lparen name = false ->
  variable_in_list name variable_list = bool_decide (name ∈ variable_list)
  /\ variable_in_list (name +:+ String lparen index) variable_list
     = bool_decide (name ∈ variable_list).
Proof.
  intros H. unfold variable_in_list.
  by rewrite variable_name_loop_all, variable_name_loop_paren.
Qed.

Lemma variable_in_list_spec_witness :
  variable_in_list "gaps" ["gaps"; "widths"] = true
  /\ variable_in_list "gaps(2)" ["gaps"; "widths"] = true.
Proof.
  destruct (variable_in_list_spec "gaps" "2)" ["gaps"; "widths"]) as [H1 H2].
  - reflexivity.
  - split; [exact (eq_trans H1 eq_refl) | exact (eq_trans H2 eq_refl)].
Defined.

(** [check_var_or_str] lets through the quoted texts and the names, indexed
    or not, of the variables of the script, and raises its exception on any
    other text but the empty one, where [IndexError] comes first. *)
Theorem check_var_or_str_spec
    (script_variables : list string) (variable_name : string) :
  check_var_or_str script_variables EmptyString = Raise IndexError
  /\ (variable_name <> EmptyString ->
      check_var_or_str script_variables variable_name
      = if bool_decide (first_char variable_name = Some "034"%char
                        /\ last_char variable_name = Some "034"%char)
           || variable_in_list variable_name script_variables
        then Val tt
        else Raise (Exception ("Variable : " +:+ variable_name
                               +:+ " not a vbs string "
                               +:+ "nor a predefined variable."))).
Proof.
  split; [done|]. intros Hne.
  destruct (check_is_vbs_string_cases variable_name) as [Hraise Htrue].
  unfold check_var_or_str.
  destruct (check_is_vbs_string variable_name) as [[|]|e] eqn:E.
  - rewrite bool_decide_eq_true_2 by (by apply Htrue). reflexivity.
  - rewrite bool_decide_eq_false_2.
    + by destruct (variable_in_list variable_name script_variables).
    + intros H. apply Htrue in H. congruence.
  - exfalso. apply Hne. apply Hraise.
    destruct variable_name as [|c s]; [done|].
    revert E. unfold check_is_vbs_string. cbn [first_char].
    destruct (last_char_cons c s) as [c1 ->].
    by destruct (Ascii.eqb c "034"), (Ascii.eqb c1 "034").
Qed.

Lemma check_var_or_str_spec_witness :
  check_var_or_str ["gaps"] "gaps(2)" = Val tt.
Proof.
  destruct (check_var_or_str_spec ["gaps"] "gaps(2)") as [_ H].
  rewrite H; [reflexivity|discriminate].
Defined.

(* ------------------------------------------------------------------ *)
(** ** Words and job identifiers *)

Lemma word_list_loop_fields
    (s : string) (word_list : list string) (temp_word : string) :
  has_char space temp_word = false ->
  exists ws tail,
    string_to_word_list_loop s word_list temp_word = word_list ++ ws
    /\ temp_word +:+ s = join_words ws +:+ tail
    /\ has_char space tail = false
    /\ Forall (fun w => has_char space w = false) ws.
Proof.
  revert word_list temp_word.
  induction s as [|c s IH]; intros word_list temp_word Htemp.
  - exists [], temp_word. simpl. rewrite app_nil_r, app_empty_r. eauto.
  - simpl. destruct (Ascii.eqb c space) eqn:Ec; simpl.
    + apply Ascii.eqb_eq in Ec as ->.
      destruct (IH (word_list ++ [temp_word]) EmptyString eq_refl)
        as (ws & tail & Hrun & Htext & Htail & Hws).
      exists (temp_word :: ws), tail. rewrite Hrun, <- app_assoc.
      repeat split; [|done|by constructor].
      simpl. rewrite app_empty_l in Htext. rewrite Htext.
      by rewrite !app_assoc_s.
    + destruct (IH word_list (temp_word +:+ String c EmptyString))
        as (ws & tail & Hrun & Htext & Htail & Hws).
      { rewrite has_char_app, Htemp. simpl. by rewrite Ec. }
      exists ws, tail. rewrite Hrun. repeat split; [|done..].
      rewrite <- Htext. by rewrite app_assoc_s.
Qed.

(** [string_to_word_list] cuts a text at its spaces: the text is its words,
    each followed by one space, and then a rest without space that is not
    among the words; no word holds a space (two spaces in a row give an
    empty word). *)
Theorem string_to_word_list_fields (s : string) :
  exists tail,
    s = join_words (string_to_word_list s) +:+ tail
    /\ has_char space tail = false
    /\ Forall (fun w => has_char space w = false) (string_to_word_list s).
Proof.
  destruct (word_list_loop_fields s [] EmptyString eq_refl)
    as (ws & tail & Hrun & Htext & Htail & Hws).
  unfold string_to_word_list. rewrite Hrun. simpl.
  exists tail. by rewrite <- Htext.
Qed.

Lemma string_forall_filter (p : ascii -> bool) (s : string) :
  string_forall p (string_filter p s) = true.
Proof.
  induction s as [|c s IH]; [done|]. simpl.
  destruct (p c) eqn:E; [|done]. simpl. by rewrite E.
Qed.

Lemma string_filter_forall (p : ascii -> bool) (s : string) :
  string_forall p s = true -> string_filter p s = s.
Proof.
  induction s as [|c s IH]; [done|]. simpl.
  intros [Hc Hs]%andb_true_iff. rewrite Hc. by rewrite IH.
Qed.

Lemma string_forall_app (p : ascii -> bool) (s t : string) :
  string_forall p (s +:+ t) = string_forall p s && string_forall p t.
Proof.
  induction s as [|c s IH]; [done|]. rewrite app_String. simpl.
  by rewrite IH, andb_assoc.
Qed.

Lemma string_forall_impl (p q : ascii -> bool) (s : string) :
  (forall c, p c = true -> q c = true) ->
  string_forall p s = true -> string_forall q s = true.
Proof.
  intros Hpq. induction s as [|c s IH]; [done|]. simpl.
  intros [Hc Hs]%andb_true_iff. by rewrite (Hpq c Hc), IH.
Qed.

(** Continuation bytes extend the character being read. *)
Lemma chars_loop_continuation (cont rest current : string) :
  string_forall is_continuation cont = true ->
  chars_loop (cont +:+ rest) current = chars_loop rest (current +:+ cont).
Proof.
  revert current. induction cont as [|b cont IH]; intros current H.
  - simpl. by rewrite app_empty_r.
  - simpl in H. apply andb_true_iff in H as [Hb Hcont].
    rewrite app_String. simpl. rewrite Hb, IH by done.
    by rewrite app_assoc_s.
Qed.

(** Any other byte, or the end of the text, closes it. *)
Lemma chars_loop_lead (rest current : string) :
  match rest with
  | EmptyString => True
  | String b _ => is_continuation b = false
  end ->
  chars_loop rest current = current :: chars rest.
Proof. destruct rest as [|b rest]; [done|]. simpl. by intros ->. Qed.

(** Characters put one after the other are the characters of the text
    they make. *)
Lemma chars_text_of (cs : list string) :
  Forall is_character cs -> chars (text_of cs) = cs.
Proof.
  induction 1 as [|c cs Hc Hcs IH]; [done|].
  destruct c as [|b cont]; [done|]. destruct Hc as [Hb Hcont].
  cbn [text_of foldr]. fold (text_of cs). rewrite app_String.
  cbn [chars]. rewrite chars_loop_continuation by done.
  rewrite chars_loop_lead.
  - by rewrite IH.
  - destruct Hcs as [|c' cs' Hc' _]; [done|].
    destruct c' as [|b' cont']; [done|]. cbn. apply Hc'.
Qed.

(** A byte sequence that is a code point has the shape of a character. *)
Lemma code_point_character (c : string) (n : N) :
  code_point c = Some n -> is_character c.
Proof.
  unfold code_point, is_character, is_continuation.
  destruct c as [|b0 [|b1 [|b2 [|b3 [|b4 c]]]]]; try discriminate; simpl;
    repeat match goal with
           | |- context [ (?x <=? ?y)%N ] => destruct (N.leb_spec x y)
           | |- context [ (?x <? ?y)%N ] => destruct (N.ltb_spec x y)
           end; simpl; try discriminate; intros _;
    repeat split; try reflexivity; try lia;
    rewrite ?andb_true_r; rewrite ?andb_false_r;
    repeat match goal with
           | |- context [ (?x <=? ?y)%N ] => destruct (N.leb_spec x y)
           | |- context [ (?x <? ?y)%N ] => destruct (N.ltb_spec x y)
           end; simpl; try reflexivity; lia.
Qed.

Lemma str_isdigit_character (c : string) :
  str_isdigit c = true -> is_character c.
Proof.
  unfold str_isdigit. destruct (code_point c) as [n|] eqn:Hc; [|done].
  intros _. by eapply code_point_character.
Qed.

(** The digits kept from a word are the characters of the text they
    make. *)
Lemma chars_digits (cs : list string) :
  chars (text_of (List.filter str_isdigit cs)) = List.filter str_isdigit cs.
Proof.
  apply chars_text_of. apply Forall_forall. intros c Hc.
  apply list_elem_of_In, filter_In in Hc as [_ Hc].
  by apply str_isdigit_character.
Qed.

(** On the bytes of ASCII [str.isdigit] is the test for ['0'..'9']. *)
Lemma str_isdigit_ascii (b : ascii) :
  is_ascii b = true -> str_isdigit (String b EmptyString) = isdigit b.
Proof.
  destruct b as [[] [] [] [] [] [] [] []]; intros H;
    first [ discriminate H | by vm_compute ].
Qed.

Lemma isdigit_ascii (b : ascii) : isdigit b = true -> is_ascii b = true.
Proof.
  destruct b as [[] [] [] [] [] [] [] []]; intros H;
    first [ discriminate H | by vm_compute ].
Qed.

(** In a text of ASCII each byte is a character. *)
Lemma chars_ascii (b : ascii) (s : string) :
  string_forall is_ascii s = true ->
  chars (String b s) = String b EmptyString :: chars s.
Proof.
  intros H. cbn [chars]. apply chars_loop_lead.
  destruct s as [|b' s]; [done|]. simpl in H.
  apply andb_true_iff in H as [Hb' _]. unfold is_ascii in Hb'.
  unfold is_continuation. apply N.ltb_lt in Hb'.
  apply andb_false_iff. left. apply N.leb_gt. lia.
Qed.

Lemma digits_of_ascii (w temp_s : string) :
  string_forall is_ascii w = true ->
  digits_of (chars w) temp_s = temp_s +:+ string_filter isdigit w.
Proof.
  revert temp_s. induction w as [|b w IH]; intros temp_s H.
  - simpl. by rewrite app_empty_r.
  - simpl in H. apply andb_true_iff in H as [Hb Hw].
    rewrite chars_ascii by done. cbn [digits_of string_filter].
    rewrite str_isdigit_ascii by done.
    destruct (isdigit b); rewrite IH by done; [|done].
    by rewrite app_assoc_s.
Qed.

Lemma find_job_id_loop_outcome
    (seen items : list string) (val : string) :
  (last items = Some "Job" ->
   find_job_id_loop (seen ++ items) (length seen) items val = Raise IndexError)
  /\ (last items <> Some "Job" ->
      exists v,
        find_job_id_loop (seen ++ items) (length seen) items val = Val v
        /\ (v = val
            \/ Forall (fun c => str_isdigit c = true) (chars v))).
Proof.
  revert seen val. induction items as [|x items IH]; intros seen val.
  - split; [done|]. intros _. exists val. by split; [|left].
  - rewrite find_job_id_loop_cons.
    specialize (IH (seen ++ [x])).
    rewrite <- app_assoc, length_app in IH. simpl in IH.
    replace (length seen + 1)%nat with (S (length seen)) in IH by lia.
    destruct items as [|y items].
    + replace ((seen ++ [x]) !! (length seen + 1)%nat) with (@None string)
        by (symmetry; apply lookup_ge_None; rewrite length_app; simpl; lia).
      simpl last. destruct (String.eqb x "Job") eqn:Ex.
      * apply String.eqb_eq in Ex as ->. split; [done|]. by intros [].
      * apply String.eqb_neq in Ex. split; [congruence|].
        intros _. exists val. by split; [|left].
    + replace ((seen ++ x :: y :: items) !! (length seen + 1)%nat)
        with (Some y).
      2:{ symmetry. rewrite lookup_app_r by lia.
          by replace (length seen + 1 - length seen)%nat with 1%nat by lia. }
      change (last (x :: y :: items)) with (last (y :: items)).
      destruct (String.eqb x "Job").
      * destruct (IH (digits_of (chars y) EmptyString)) as [Hraise Hval].
        split; [exact Hraise|]. intros Hlast.
        destruct (Hval Hlast) as (v & Hv & Hshape). exists v.
        split; [exact Hv|]. right. destruct Hshape as [->|?]; [|done].
        rewrite digits_of_filter, app_empty_l, chars_digits.
        apply Forall_forall. intros c Hc.
        by apply list_elem_of_In, filter_In in Hc as [_ Hc].
      * apply IH.
Qed.

(** [find_job_id_from_exec_output] raises, and then [IndexError], exactly
    when the last word of the output is [Job]; otherwise it returns the
    diagnostic text or a text each character of which is a digit for
    [str.isdigit]. *)
Theorem find_job_id_from_exec_output_outcome (output_string : string) :
  (last (string_to_word_list output_string) = Some "Job" ->
   find_job_id_from_exec_output output_string = Raise IndexError)
  /\ (last (string_to_word_list output_string) <> Some "Job" ->
      exists v,
        find_job_id_from_exec_output output_string = Val v
        /\ (v = no_job_id output_string
            \/ Forall (fun c => str_isdigit c = true) (chars v))).
Proof.
  apply (find_job_id_loop_outcome [] (string_to_word_list output_string)).
Qed.

Lemma find_job_id_from_exec_output_outcome_witness :
  find_job_id_from_exec_output "Submitted as Job " = Raise IndexError
  /\ exists v,
       find_job_id_from_exec_output "Job <77> is submitted " = Val v
       /\ (v = no_job_id "Job <77> is submitted "
           \/ Forall (fun c => str_isdigit c = true) (chars v)).
Proof.
  split.
  - apply (proj1 (find_job_id_from_exec_output_outcome "Submitted as Job ")).
    reflexivity.
  - apply (proj2 (find_job_id_from_exec_output_outcome
                    "Job <77> is submitted ")).
    vm_compute. discriminate.
Defined.

Lemma word_list_loop_acc
    (s : string) (word_list : list string) (temp_word : string) :
  string_to_word_list_loop s word_list temp_word
  = word_list ++ string_to_word_list_loop s [] temp_word.
Proof.
  revert word_list temp_word.
  induction s as [|c s IH]; intros word_list temp_word; simpl.
  - by rewrite app_nil_r.
  - destruct (negb (Ascii.eqb c space)); [apply IH|].
    rewrite (IH (word_list ++ [temp_word])), (IH ([] ++ [temp_word])).
    by rewrite <- app_assoc.
Qed.

Lemma word_list_loop_word
    (w rest : string) (word_list : list string) (temp_word : string) :
  has_char space w = false ->
  string_to_word_list_loop (w +:+ String space rest) word_list temp_word
  = string_to_word_list_loop rest (word_list ++ [temp_word +:+ w]) EmptyString.
Proof.
  revert temp_word. induction w as [|c w IH]; intros temp_word H.
  - simpl. by rewrite app_empty_r.
  - simpl in H. apply orb_false_iff in H as [Hc Hw].
    rewrite app_String. simpl. rewrite Hc. simpl.
    rewrite IH by done. by rewrite app_assoc_s.
Qed.

(** A word followed by a space is the first word of the text. *)
Lemma string_to_word_list_word (w rest : string) :
  has_char space w = false ->
  string_to_word_list (w +:+ String space rest) = w :: string_to_word_list rest.
Proof.
  intros H. unfold string_to_word_list.
  rewrite word_list_loop_word by done. by rewrite word_list_loop_acc.
Qed.

Lemma digits_no_space (s : string) :
  string_forall isdigit s = true -> has_char space s = false.
Proof.
  induction s as [|c s IH]; [done|]. simpl.
  intros [Hc Hs]%andb_true_iff. rewrite IH by done.
  destruct (Ascii.eqb c space) eqn:E; [|done].
  apply Ascii.eqb_eq in E as ->. done.
Qed.

Lemma string_filter_app (p : ascii -> bool) (s t : string) :
  string_filter p (s +:+ t) = string_filter p s +:+ string_filter p t.
Proof.
  induction s as [|c s IH]; [done|]. rewrite app_String. simpl.
  destruct (p c); by rewrite IH.
Qed.

(** The acknowledgement of the scheduler, [Job <n> is submitted to ...],
    gives back the identifier [n]: whatever follows, as long as no later
    word is [Job] again. *)
Theorem find_job_id_from_acknowledgement (job_id rest : string) :
  string_forall isdigit job_id = true ->
  "Job" ∉ string_to_word_list rest ->
  find_job_id_from_exec_output ("Job <" +:+ job_id +:+ "> " +:+ rest)
  = Val job_id.
Proof.
  intros Hdigits Hrest.
  assert (Hwords :
    string_to_word_list ("Job <" +:+ job_id +:+ "> " +:+ rest)
    = "Job" :: ("<" +:+ job_id +:+ ">") :: string_to_word_list rest).
  { change ("Job <" +:+ job_id +:+ "> " +:+ rest)
      with ("Job" +:+ String space ("<" +:+ job_id +:+ "> " +:+ rest)).
    rewrite string_to_word_list_word by done. f_equal.
    replace ("<" +:+ job_id +:+ "> " +:+ rest)
      with (("<" +:+ job_id +:+ ">") +:+ String space rest)
      by (by rewrite !app_assoc_s).
    apply string_to_word_list_word.
    rewrite !has_char_app, (digits_no_space job_id) by done. reflexivity. }
  unfold find_job_id_from_exec_output. rewrite Hwords.
  rewrite (find_job_id_loop_last_marker [] [] (string_to_word_list rest)
             ("<" +:+ job_id +:+ ">")).
  - rewrite digits_of_ascii, app_empty_l, !string_filter_app.
    + rewrite (string_filter_forall isdigit job_id) by done.
      simpl. by rewrite app_empty_r.
    + rewrite !string_forall_app.
      rewrite (string_forall_impl isdigit is_ascii job_id isdigit_ascii)
        by done.
      reflexivity.
  - apply not_elem_of_cons. split; [discriminate|done].
Qed.

Lemma find_job_id_from_acknowledgement_witness :
  find_job_id_from_exec_output
    ("Job <" +:+ "20431" +:+ "> " +:+ "is submitted to queue <normal.4h>.")
  = Val "20431".
Proof.
  apply (find_job_id_from_acknowledgement "20431"
           "is submitted to queue <normal.4h>.").
  - reflexivity.
  - vm_compute. not_in_literals.
Defined.

(* ------------------------------------------------------------------ *)
(** ** Reading a log *)

(** [find_lock_error_syndrome] reads the log line by line and yet answers
    for the whole file: [True] exactly when the lock-error text occurs in
    it. It leaves the world as it is, and raises when the log is missing,
    is a directory, or holds bytes that do not read as text. *)
Theorem find_lock_error_syndrome_spec (job_name : string) (w : World) :
  match fs w !! job_name with
  | Some (File content) =>
      exists b,
        find_lock_error_syndrome job_name w = (Val b, w)
        /\ (b = true <->
            exists before after,
              content = before +:+ error_syndrome +:+ after)
  | Some Undecodable =>
      find_lock_error_syndrome job_name w = (Raise UnicodeDecodeError, w)
  | Some Dir =>
      find_lock_error_syndrome job_name w = (Raise IsADirectoryError, w)
  | None =>
      find_lock_error_syndrome job_name w = (Raise FileNotFoundError, w)
  end.
Proof.
  destruct (fs w !! job_name) as [[content| |]|] eqn:Hf.
  - exists (str_in error_syndrome content).
    split; [by apply find_lock_error_syndrome_file|apply str_in_iff].
  - unfold find_lock_error_syndrome, bind, open_readlines. by rewrite Hf.
  - unfold find_lock_error_syndrome, bind, open_readlines. by rewrite Hf.
  - unfold find_lock_error_syndrome, bind, open_readlines. by rewrite Hf.
Qed.

Lemma detect_errors_line_entries
    (lines : list string) (display_warnings : bool) (i : nat)
    (line : string) (w : World) :
  lines !! i = Some line ->
  detect_errors_line lines display_warnings i w
  = (Val tt,
     mkWorld (fs w)
       (status w
        ++ (if report_line display_warnings (string_to_word_list line)
            then Update <$> take 4 (drop i lines) else []))
       (trace w)).
Proof.
  intros Hline.
  unfold detect_errors_line, item, bind, try_catch, write_update, modify, ret,
    raise.
  rewrite Hline.
  destruct (report_line display_warnings (string_to_word_list line));
    [|destruct w; simpl; by rewrite app_nil_r].
  rewrite <- (lookup_drop lines i 1), <- (lookup_drop lines i 2),
    <- (lookup_drop lines i 3).
  assert (Hhead : drop i lines !! 0%nat = Some line)
    by (by rewrite lookup_drop, Nat.add_0_r).
  destruct (drop i lines) as [|a [|b [|c [|d rest]]]]; simpl in *;
    simplify_eq; rewrite <- ?app_assoc; reflexivity.
Qed.

(** A reported line comes with the three lines that follow it, or with
    those that are left when the log ends sooner, which is no error. *)
Theorem detect_errors_line_context
    (lines : list string) (display_warnings : bool) (i : nat)
    (line : string) (w : World) :
  lines !! i = Some line ->
  report_line display_warnings (string_to_word_list line) = true ->
  detect_errors_line lines display_warnings i w
  = (Val tt,
     mkWorld (fs w) (status w ++ (Update <$> take 4 (drop i lines)))
             (trace w)).
Proof.
  intros Hline Hreport.
  rewrite (detect_errors_line_entries _ _ _ line) by done.
  by rewrite Hreport.
Qed.

Lemma detect_errors_line_context_witness :
  detect_errors_line ["[error] mesh" +:+ nl; "abort" +:+ nl] false 0
                     empty_world
  = (Val tt,
     mkWorld ∅ [Update ("[error] mesh" +:+ nl); Update ("abort" +:+ nl)] []).
Proof.
  apply (detect_errors_line_context
           ["[error] mesh" +:+ nl; "abort" +:+ nl] false 0
           ("[error] mesh" +:+ nl) empty_world).
  - reflexivity.
  - reflexivity.
Defined.

Lemma detect_errors_loop
    (lines : list string) (display_warnings : bool) (indices : list nat)
    (w : World) :
  Forall (fun i => (i < length lines)%nat) indices ->
  for_each indices (detect_errors_line lines display_warnings) w
  = (Val tt,
     mkWorld (fs w)
       (status w
        ++ flat_map
             (fun i =>
                match lines !! i with
                | Some line =>
                    if report_line display_warnings (string_to_word_list line)
                    then Update <$> take 4 (drop i lines)
                    else []
                | None => []
                end)
             indices)
       (trace w)).
Proof.
  revert w. induction indices as [|i indices IH]; intros w Hin.
  - destruct w. simpl. by rewrite app_nil_r.
  - apply Forall_cons in Hin as [Hi Hin].
    destruct (lookup_lt_is_Some_2 lines i Hi) as [line Hline].
    cbn [for_each flat_map]. unfold bind.
    rewrite (detect_errors_line_entries _ _ _ line) by done.
    rewrite IH by done. rewrite Hline. simpl. by rewrite <- app_assoc.
Qed.

Lemma detect_errors_from_log_file_run
    (log_file_name : string) (display_warnings : bool) (w : World) :
  detect_errors_from_log_file log_file_name display_warnings w
  = match fs w !! log_file_name with
    | Some (File content) =>
        (Val tt,
         mkWorld (fs w)
           (status w
            ++ Update ("Checking for errors and warnings in: "
                       +:+ log_file_name)
               :: reported display_warnings (readlines content))
           (trace w))
    | Some Undecodable => (Raise UnicodeDecodeError, w)
    | Some Dir => (Raise IsADirectoryError, w)
    | None => (Raise FileNotFoundError, w)
    end.
Proof.
  unfold detect_errors_from_log_file, bind, open_readlines.
  destruct (fs w !! log_file_name) as [[content| |]|]; [|done..].
  unfold write_update, modify. cbn [fst snd].
  rewrite detect_errors_loop.
  - simpl. unfold reported. by rewrite <- app_assoc.
  - apply Forall_forall. intros i Hi. apply elem_of_seq in Hi. lia.
Qed.

(** On a log that holds text, [detect_errors_from_log_file] returns
    normally (the end of the log cuts the context of a late marker short),
    touches no file and starts nothing; the status sink receives the
    heading and then, for every line with a marker word, that line and the
    lines after it, three at most. When the log cannot be read (it is
    missing, it is a directory, or its bytes are not text) the function
    raises before the heading is written. *)
Theorem detect_errors_from_log_file_spec
    (log_file_name : string) (display_warnings : bool) (w : World) :
  detect_errors_from_log_file log_file_name display_warnings w
  = match fs w !! log_file_name with
    | Some (File content) =>
        (Val tt,
         mkWorld (fs w)
           (status w
            ++ Update ("Checking for errors and warnings in: "
                       +:+ log_file_name)
               :: reported display_warnings (readlines content))
           (trace w))
    | Some Undecodable => (Raise UnicodeDecodeError, w)
    | Some Dir => (Raise IsADirectoryError, w)
    | None => (Raise FileNotFoundError, w)
    end.
Proof. apply detect_errors_from_log_file_run. Qed.

(* ------------------------------------------------------------------ *)
(** ** What the cleanup removes and reports *)




(* ------------------------------------------------------------------ *)
(** ** Invariants of polling *)

Section PollInvariant.

Variable run_process :
  string -> option string -> gmap string node -> gmap string node * string.
Variable splitext_root : string -> string.

Context (R : relation state) `{!PreOrder R}.
Hypothesis R_world : forall t w w', R (t, w) (t, w').
Hypothesis R_update :
  forall f, progress_update f -> stable R (set_current_step f).
Hypothesis R_next : stable R (modify_self Task.next_step).

(** A relation kept by a change of the world, by the assignments to the
    current step and by [next_step] is kept by a poll, however it ends. *)
Lemma execute_step_invariant :
  stable R (execute_step run_process splitext_root).
Proof.
  unfold execute_step.
  repeat first
    [ apply R_next
    | apply R_update; constructor
    | apply (stable_io R R_world)
    | stable_step R ].
Qed.

Lemma polls_invariant (envs : list (World -> World)) (s : state) :
  R s (polls run_process splitext_root envs s).
Proof.
  revert s. induction envs as [|env envs IH]; intros s; [reflexivity|].
  cbn [polls]. cbv zeta.
  etrans; [apply execute_step_invariant|].
  destruct (execute_step run_process splitext_root s).2 as [t w].
  etrans; [apply (R_world t w (env w))|]. apply IH.
Qed.

End PollInvariant.

Global Instance done_kept_preorder : PreOrder done_kept.
Proof.
  split.
  - intros s. split; [done|]. eauto.
  - intros s1 s2 s3 [Ht1 Hs1] [Ht2 Hs2]. split; [auto|].
    intros i step Hstep Hdone.
    destruct (Hs1 i step Hstep Hdone) as (step2 & Hstep2 & Hdone2).
    eauto.
Qed.

Global Instance same_shape_preorder : PreOrder same_shape.
Proof.
  split.
  - intros s. by repeat split.
  - intros s1 s2 s3 (F1 & ?) (F2 & ?). split; [by etrans|].
    intuition congruence.
Qed.

Global Instance cursor_in_range_preorder : PreOrder cursor_in_range.
Proof. split; unfold cursor_in_range; [by intros s|intros s1 s2 s3; auto]. Qed.

(** Done is final. Along any sequence of polls, with the world changing
    freely in between, a step that is done stays done and a task that is
    done stays done. *)
Theorem done_is_final
    (run_process :
       string -> option string -> gmap string node -> gmap string node * string)
    (splitext_root : string -> string)
    (envs : list (World -> World)) (s : state) :
  done_kept s (polls run_process splitext_root envs s).
Proof.
  apply polls_invariant; [apply _|intros t w w'; split; [done|eauto]|..].
  - intros f Hf. apply stable_modify_self. intros t w. split; [done|].
    simpl. intros i step Hstep Hdone.
    destruct (decide (i = Task.step_iterator t)) as [->|Hi].
    + exists (f step). rewrite list_lookup_alter_eq, Hstep.
      split; [done|]. by destruct Hf.
    + exists step. by rewrite list_lookup_alter_ne.
  - apply stable_modify_self. intros t w. unfold Task.next_step.
    destruct (_ =? _)%nat; split; simpl; eauto.
Qed.

(** Polling never changes what a task is made of: along any sequence of
    polls the steps are as many, each keeps its name, kind, files and
    callable, and the task keeps its project, backend, executable, sub
    folder and warning option. *)
Theorem polling_keeps_the_shape
    (run_process :
       string -> option string -> gmap string node -> gmap string node * string)
    (splitext_root : string -> string)
    (envs : list (World -> World)) (s : state) :
  same_shape s (polls run_process splitext_root envs s)
  /\ length (Task.steps (polls run_process splitext_root envs s).1)
     = length (Task.steps s.1).
Proof.
  assert (H : same_shape s (polls run_process splitext_root envs s)).
  { apply polls_invariant; [apply _|by repeat split|..].
    - intros f Hf. apply stable_modify_self. intros t w.
      split; [|done]. simpl.
      apply Forall2_alter_r; [reflexivity|]. intros x y _ _ Hxy.
      etrans; [exact Hxy|]. by destruct Hf.
    - apply stable_modify_self. intros t w. unfold Task.next_step.
      destruct (_ =? _)%nat; by repeat split. }
  split; [exact H|]. destruct H as [H _]. symmetry. by eapply Forall2_length.
Qed.

(** A cursor that addresses a step keeps addressing one: on a task with
    its cursor in range, no poll of any sequence finds the list of steps too
    short. *)
Theorem cursor_stays_in_range
    (run_process :
       string -> option string -> gmap string node -> gmap string node * string)
    (splitext_root : string -> string)
    (envs : list (World -> World)) (s : state) :
  (Task.step_iterator s.1 < length (Task.steps s.1))%nat ->
  is_Some (Task.steps (polls run_process splitext_root envs s).1
             !! Task.step_iterator (polls run_process splitext_root envs s).1).
Proof.
  intros Hin. apply lookup_lt_is_Some_2. revert Hin.
  change (cursor_in_range s (polls run_process splitext_root envs s)).
  apply polls_invariant; [apply _|intros t w w' H; exact H|..].
  - intros f _. apply stable_modify_self. intros t w.
    unfold cursor_in_range. simpl. by rewrite length_alter.
  - apply stable_modify_self. intros t w. unfold cursor_in_range, Task.next_step.
    destruct (Task.step_iterator t + 1 =? length (Task.steps t))%nat eqn:E;
      simpl; [done|]. apply Nat.eqb_neq in E. lia.
Qed.

Lemma cursor_stays_in_range_witness :
  is_Some (Task.steps (polls idle_process splitext_root_plain [id; id]
                         (report_task, empty_world)).1
             !! Task.step_iterator
                  (polls idle_process splitext_root_plain [id; id]
                     (report_task, empty_world)).1).
Proof.
  apply (cursor_stays_in_range idle_process splitext_root_plain [id; id]
           (report_task, empty_world)).
  simpl. lia.
Defined.

(* ------------------------------------------------------------------ *)
(** ** The transitions of a step *)

Lemma bind_assoc_state {S A B C}
    (m : M S A) (f : A -> M S B) (g : B -> M S C) (s : S) :
  bind (bind m f) g s = bind m (fun a => bind (f a) g) s.
Proof. unfold bind. by destruct (m s) as [[a|e] s1]. Qed.

Lemma alter_current_step
    (f : Step.t -> Step.t) (steps : list Step.t) (i : nat) (step : Step.t) :
  steps !! i = Some step -> alter f i steps = <[i := f step]> steps.
Proof.
  intros Hstep. apply list_eq. intros j.
  destruct (decide (j = i)) as [->|Hj].
  - rewrite list_lookup_alter_eq, Hstep. simpl.
    rewrite list_lookup_insert_eq; [done|]. by eapply lookup_lt_Some.
  - by rewrite list_lookup_alter_ne, list_lookup_insert_ne.
Qed.

Section Transitions.

Variable run_process :
  string -> option string -> gmap string node -> gmap string node * string.
Variable splitext_root : string -> string.

Lemma execute_step_waits
    (t : Task.t) (w : World) (step : Step.t) (log : string) :
  Task.steps t !! Task.step_iterator t = Some step ->
  Step.done step = false ->
  Step.step_type step <> "Python" ->
  Step.in_progress step = true ->
  step_log_file_name splitext_root step = Some log ->
  fs w !! log = None ->
  execute_step run_process splitext_root (t, w) = (Val tt, (t, w)).
Proof.
  intros Hstep Hdone Hpy Hprogress Hlog Hfile.
  apply String.eqb_neq in Hpy. unfold execute_step.
  rewrite bind_self, Hstep, bind_ret, Hdone, Hpy, log_file_name_resolved, Hlog.
  cbn [not_none]. rewrite bind_ret, Hprogress. cbn [negb].
  rewrite (bind_io_val (os_path_exists log) _ t w w false); [done|].
  unfold os_path_exists. rewrite Hfile.
  by rewrite bool_decide_eq_false_2 by (by intros [? ?]).
Qed.

(** While the log of a dispatched step has not appeared, polling does
    nothing at all: along any sequence of polls between which the log stays
    absent, the task is left as it is, neither done nor advanced, and the
    world only changes by itself. *)
Theorem polls_wait_for_the_log
    (envs : list (World -> World))
    (t : Task.t) (w : World) (step : Step.t) (log : string) :
  Task.steps t !! Task.step_iterator t = Some step ->
  Step.done step = false ->
  Step.step_type step <> "Python" ->
  Step.in_progress step = true ->
  step_log_file_name splitext_root step = Some log ->
  fs w !! log = None ->
  Forall (fun env : World -> World =>
            forall w', fs w' !! log = None -> fs (env w') !! log = None)
         envs ->
  polls run_process splitext_root envs (t, w)
  = (t, foldl (fun w' env => env w') w envs).
Proof.
  intros Hstep Hdone Hpy Hprogress Hlog Hfile Henvs. revert w Hfile.
  induction envs as [|env envs IH]; intros w Hfile; [done|].
  apply Forall_cons in Henvs as [Henv Henvs].
  cbn [polls foldl]. cbv zeta.
  rewrite (execute_step_waits t w step log) by done. cbn [fst snd].
  apply IH; [done|]. by apply Henv.
Qed.


(** On the local backend, the first poll of a script step removes a log
    left by an earlier run, then runs the application once and waits for
    it: the application finds the directory without that log, and the step
    comes out in progress, its job identifier untouched. *)
Theorem local_script_step_dispatch
    (t : Task.t) (w : World) (step : Step.t)
    (script_name ansys_exec_address : string) :
  Task.exec_option t = "local" ->
  Task.ansys_exec_address t = Some ansys_exec_address ->
  Task.steps t !! Task.step_iterator t = Some step ->
  Step.done step = false ->
  Step.in_progress step = false ->
  Step.step_type step = "Script" ->
  Step.script_name step = Some script_name ->
  fs w !! (splitext_root script_name +:+ ".log") <> Some Dir ->
  let log := splitext_root script_name +:+ ".log" in
  let cmd :=
    "cmd /c" +:+ " " +:+ ansys_exec_address +:+ " " +:+
    "-features=beta -ng -runscriptandexit" +:+ " " +:+
    script_name +:+ " " +:+ (Task.project_name t +:+ ".aedt") in
  exists w',
    execute_step run_process splitext_root (t, w)
    = (Val tt,
       (Task.set_steps
          (<[Task.step_iterator t := Step.set_in_progress true step]>
             (Task.steps t))
          t,
        w'))
    /\ fs w' = (run_process cmd (Task.sub_folder t) (delete log (fs w))).1
    /\ trace w' = trace w ++ [Spawn cmd (Task.sub_folder t)].
Proof.
  intros Hlocal Haddr Hstep Hdone Hprogress Hscript Hname Hnodir.
  cbv zeta. set (log := splitext_root script_name +:+ ".log") in *.
  assert (Hlog : step_log_file_name splitext_root step = Some log)
    by (unfold step_log_file_name; by rewrite Hscript, Hname).
  unfold execute_step.
  rewrite bind_self, Hstep, bind_ret, Hdone, log_file_name_resolved, Hlog.
  rewrite Hscript.
  change (String.eqb "Script" "Python") with false.
  change (String.eqb "Script" "Script") with true. cbv iota.
  cbn [not_none]. rewrite bind_ret, Hprogress. cbn [negb].
  rewrite (bind_io_val (os_path_exists log) _ t w w
             (bool_decide (is_Some (fs w !! log)))) by done.
  assert (Hpre : exists w1,
    (if bool_decide (is_Some (fs w !! log))
     then (io (os_remove log) ;;;
           io (write_update "Pre existing log file removed"))%py
     else ret tt) (t, w) = (Val tt, (t, w1))
    /\ fs w1 = delete log (fs w) /\ trace w1 = trace w).
  { destruct (fs w !! log) as [[content| |]|] eqn:Hfile; [| |done|].
    - rewrite bool_decide_eq_true_2 by eauto.
      rewrite (bind_io_val (os_remove log) _ t w (with_fs (delete log) w) tt)
        by (unfold os_remove; by rewrite Hfile).
      eexists. split; [reflexivity|]. done.
    - rewrite bool_decide_eq_true_2 by eauto.
      rewrite (bind_io_val (os_remove log) _ t w (with_fs (delete log) w) tt)
        by (unfold os_remove; by rewrite Hfile).
      eexists. split; [reflexivity|]. done.
    - rewrite bool_decide_eq_false_2 by (by intros [? ?]).
      exists w. split; [done|]. by rewrite delete_id. }
  destruct Hpre as (w1 & Hpre & Hfs1 & Htrace1).
  rewrite (bind_val _ _ _ _ _ Hpre).
  rewrite (bind_io_val (write_update _) _ t w1 _ tt eq_refl).
  rewrite bind_assoc_state, Hname, Hlocal, Haddr.
  erewrite bind_io_val by reflexivity.
  rewrite bind_ret.
  erewrite (bind_val (set_current_step _)) by reflexivity.
  change (String.eqb "local" "euler") with false. cbv iota.
  eexists. split; [|split].
  - unfold ret. cbn [fst snd]. do 2 f_equal.
    by rewrite (alter_current_step _ _ _ step).
  - cbn [fs fst snd]. by rewrite Hfs1.
  - cbn [trace fst snd]. by rewrite Htrace1.
Qed.

End Transitions.

Lemma polls_wait_for_the_log_witness :
  polls bsub_process splitext_root_plain [id; id] (sweep_task, empty_world)
  = (sweep_task, empty_world).
Proof.
  apply (polls_wait_for_the_log bsub_process splitext_root_plain [id; id]
           sweep_task empty_world sweep_step "sweep.log").
  - reflexivity.
  - reflexivity.
  - discriminate.
  - reflexivity.
  - reflexivity.
  - reflexivity.
  - repeat constructor; intros w' H; exact H.
Defined.


Lemma local_script_step_dispatch_witness :
  exists w',
    execute_step idle_process splitext_root_plain (export_task, exported_world)
    = (Val tt, (export_running_task, w'))
    /\ fs w' !! "export_cache.log" = None
    /\ trace w'
       = [Spawn ("cmd /c ansysedt.exe -features=beta -ng -runscriptandexit "
                 +:+ "export_cache.vbs chip.aedt")
                (Some "chip")].
Proof.
  destruct (local_script_step_dispatch idle_process splitext_root_plain
              export_task exported_world export_step
              "export_cache.vbs" "ansysedt.exe")
    as (w' & Hrun & Hfs & Htrace).
  - reflexivity.
  - reflexivity.
  - reflexivity.
  - reflexivity.
  - reflexivity.
  - reflexivity.
  - reflexivity.
  - vm_compute. discriminate.
  - exists w'. split; [exact Hrun|]. rewrite Hfs, Htrace.
    split; reflexivity.
Defined.

(* ------------------------------------------------------------------ *)
(** ** A failed poll leaves the task as it was *)

Lemma never_ret {S A} (a : A) : never_raises (@ret S A a).
Proof. intros s. by exists a. Qed.

Lemma never_modify {S} (f : S -> S) : never_raises (modify f).
Proof. intros s. by exists tt. Qed.

Lemma never_modify_self (f : Task.t -> Task.t) : never_raises (modify_self f).
Proof. intros s. by exists tt. Qed.

Lemma never_set_current_step (f : Step.t -> Step.t) :
  never_raises (set_current_step f).
Proof. apply never_modify_self. Qed.

Lemma never_bind {S A B} (m : M S A) (f : A -> M S B) :
  never_raises m -> (forall a, never_raises (f a)) -> never_raises (bind m f).
Proof.
  intros Hm Hf s. unfold bind. destruct (Hm s) as [a Ha].
  destruct (m s) as [r s1]. simpl in Ha. subst r. apply Hf.
Qed.

Lemma never_try_catch_all {S} (m h : M S unit) :
  never_raises h -> never_raises (try_catch any_exception m h).
Proof.
  intros Hh s. unfold try_catch. destruct (m s) as [[a|e] s1]; simpl.
  - by exists a.
  - apply Hh.
Qed.

Lemma keeps_ret {A} (a : A) : keeps_task (ret a).
Proof. by intros s. Qed.

Lemma keeps_raise {A} (e : exn) : keeps_task (@raise state A e).
Proof. by intros s. Qed.

Lemma keeps_not_none {A} (o : option A) : keeps_task (not_none o).
Proof. by destruct o. Qed.

Lemma keeps_self : keeps_task self_.
Proof. by intros s. Qed.

Lemma keeps_io {A} (m : M World A) : keeps_task (io m).
Proof. by intros s. Qed.

Lemma keeps_try_catch (catches : exn -> bool) (m h : M state unit) :
  keeps_task m -> keeps_task h -> keeps_task (try_catch catches m h).
Proof.
  intros Hm Hh s. unfold try_catch. specialize (Hm s).
  destruct (m s) as [[a|e] s1]; simpl in *; [done|].
  destruct (catches e); [|done]. by rewrite Hh.
Qed.

Lemma keeps_bind {A B} (m : M state A) (f : A -> M state B) :
  keeps_task m -> (forall a, keeps_task (f a)) -> keeps_task (bind m f).
Proof.
  intros Hm Hf s. unfold bind. specialize (Hm s).
  destruct (m s) as [[a|e] s1]; simpl in *; [|done].
  by rewrite Hf.
Qed.

Lemma atomic_keeps {A} (m : M state A) : keeps_task m -> failure_atomic m.
Proof. intros H s e _. apply H. Qed.

Lemma atomic_never {A} (m : M state A) : never_raises m -> failure_atomic m.
Proof. intros H s e He. destruct (H s) as [a Ha]. congruence. Qed.

Lemma atomic_bind {A B} (m : M state A) (f : A -> M state B) :
  keeps_task m -> (forall a, failure_atomic (f a)) ->
  failure_atomic (bind m f).
Proof.
  intros Hm Hf s e. unfold bind. specialize (Hm s).
  destruct (m s) as [[a|e'] s1]; simpl in *; [|done].
  intros He. rewrite <- Hm. by eapply Hf.
Qed.

Ltac keeps_task_tac :=
  repeat first
    [ apply keeps_io | apply keeps_ret | apply keeps_raise
    | apply keeps_not_none | apply keeps_self
    | apply keeps_try_catch
    | apply keeps_bind; [|intros ?]
    | match goal with
      | |- keeps_task (if ?b then _ else _) => destruct b
      | |- keeps_task (match ?x with _ => _ end) => destruct x
      end ].

Ltac never_raises_tac :=
  repeat first
    [ apply never_ret | apply never_set_current_step
    | apply never_modify_self ].

Ltac failure_atomic_tac :=
  repeat first
    [ apply atomic_bind; [solve [keeps_task_tac]|intros ?]
    | apply atomic_keeps; solve [keeps_task_tac]
    | apply atomic_never; solve [never_raises_tac]
    | match goal with
      | |- failure_atomic (if ?b then _ else _) => destruct b
      | |- failure_atomic (match ?x with _ => _ end) => destruct x
      end ].

(** When a poll raises, whatever the cause (a missing name, a log that is
    a directory or is not text, a report that cannot be renamed, a status
    log that cannot be written), the task object is exactly as it was
    before the poll, no flag set and no cursor moved: every assignment to
    the task is the last thing a poll does. The one exception is left
    out: the dispatch of a pending step on the cluster, which marks the
    step in progress before it writes the job identifier to the status
    log. The proof takes no account of what [write_update] does. *)
Theorem failed_poll_keeps_the_task
    (run_process :
       string -> option string -> gmap string node -> gmap string node * string)
    (splitext_root : string -> string) (s : state) (e : exn) :
  ~ dispatches_on_cluster s.1 ->
  (execute_step run_process splitext_root s).1 = Raise e ->
  (execute_step run_process splitext_root s).2.1 = s.1.
Proof.
  destruct s as [t w]. cbn [fst]. intros Hcluster.
  unfold execute_step. rewrite bind_self.
  destruct (Task.steps t !! Task.step_iterator t) as [step|] eqn:Hstep;
    [|done].
  rewrite bind_ret.
  destruct (Step.done step) eqn:Hdone; [done|].
  destruct (String.eqb (Step.step_type step) "Python") eqn:Hpy.
  { lazymatch goal with
    | |- (?m (t, w)).1 = Raise e -> _ =>
        intros Hraise; cut (failure_atomic m);
        [intros Hatomic; exact (Hatomic (t, w) e Hraise)|]
    end.
    failure_atomic_tac. }
  rewrite log_file_name_resolved.
  destruct (step_log_file_name splitext_root step) as [log|]; [|done].
  cbn [not_none]. rewrite bind_ret.
  destruct (Step.in_progress step) eqn:Hprogress; cbn [negb].
  - lazymatch goal with
    | |- (?m (t, w)).1 = Raise e -> _ =>
        intros Hraise; cut (failure_atomic m);
        [intros Hatomic; exact (Hatomic (t, w) e Hraise)|]
    end.
    failure_atomic_tac.
  - destruct (String.eqb (Task.exec_option t) "euler") eqn:Heuler.
    + exfalso. apply Hcluster. apply String.eqb_eq in Heuler.
      apply String.eqb_neq in Hpy. split; [done|]. by exists step.
    + lazymatch goal with
      | |- (?m (t, w)).1 = Raise e -> _ =>
          intros Hraise; cut (failure_atomic m);
          [intros Hatomic; exact (Hatomic (t, w) e Hraise)|]
      end.
      failure_atomic_tac.
Qed.

Lemma failed_poll_keeps_the_task_witness :
  (execute_step bsub_process splitext_root_plain
     (nameless_task, empty_world)).2.1 = nameless_task.
Proof.
  apply (failed_poll_keeps_the_task bsub_process splitext_root_plain
           (nameless_task, empty_world) TypeError).
  - intros [Heuler _]. discriminate Heuler.
  - reflexivity.
Defined.

(* ------------------------------------------------------------------ *)
(** ** Polling starts nothing *)

Global Instance same_trace_preorder : PreOrder same_trace.
Proof.
  split; unfold same_trace; [done|]. intros s1 s2 s3 H1 H2. congruence.
Qed.

Global Instance same_trace_world_preorder : PreOrder same_trace_world.
Proof.
  split; unfold same_trace_world; [done|]. intros s1 s2 s3 H1 H2. congruence.
Qed.














(* ------------------------------------------------------------------ *)
(** ** What a dispatch leaves in the step *)

Lemma bind_keeps_cases {A B}
    (m : M state A) (k : A -> M state B) (t : Task.t) (w : World) :
  keeps_task m ->
  (exists a w1, m (t, w) = (Val a, (t, w1))
                /\ bind m k (t, w) = k a (t, w1))
  \/ (exists e s1, bind m k (t, w) = (Raise e, s1)).
Proof.
  intros Hm. specialize (Hm (t, w)). unfold bind.
  destruct (m (t, w)) as [[a|e] [t1 w1]]; simpl in Hm; subst; eauto.
Qed.

Section Dispatch.

Variable run_process :
  string -> option string -> gmap string node -> gmap string node * string.
Variable splitext_root : string -> string.

(** On the cluster the dispatcher hands back an identifier whenever it
    returns. *)
Lemma cluster_dispatch_returns_identifier
    (t : Task.t) (step : Step.t) (log : string) (s s' : state)
    (job_id : option string) :
  Task.exec_option t = "euler" ->
  (if String.eqb (Step.step_type step) "Script"
   then (let* job_id :=
           io (execute_script run_process (Step.script_name step)
                 (Task.project_name t +:+ ".aedt") (Task.exec_option t)
                 (Task.ansys_exec_address t) (Step.resources_requested step)
                 (Step.bash_file_name step) None (Task.sub_folder t)) in
         ret (Some job_id))%py
   else io (run_job run_process (Step.setup_to_analyse step)
              (Task.project_name t +:+ ".aedt") (Task.exec_option t)
              (Step.design_name step) (Task.ansys_exec_address t) (Some log)
              (Step.resources_requested step) (Step.bash_file_name step)
              (Task.sub_folder t))) s
  = (Val job_id, s') ->
  is_Some job_id.
Proof.
  intros Heuler. rewrite Heuler.
  destruct (String.eqb (Step.step_type step) "Script").
  - unfold bind, io, ret.
    destruct (execute_script _ _ _ _ _ _ _ _ _ _) as [[j|e] w1]; simpl;
      intros H; simplify_eq; eauto.
  - unfold io, run_job.
    change (String.eqb "euler" "local") with false.
    change (String.eqb "euler" "euler") with true. cbv iota.
    unfold bind, ret.
    destruct (run_euler_job _ _ _ _ _ _ _ _ _ _) as [[j|e] w1]; simpl;
      intros H; simplify_eq; eauto.
Qed.

(** A dispatch that returns leaves the step in progress, not done, with
    the identity it had; on the cluster backend the step then holds a job
    identifier, on any other backend the one it had before. *)
Theorem dispatch_marks_in_progress
    (t : Task.t) (w : World) (step : Step.t) :
  Task.steps t !! Task.step_iterator t = Some step ->
  Step.done step = false ->
  Step.step_type step <> "Python" ->
  Step.in_progress step = false ->
  (execute_step run_process splitext_root (t, w)).1 = Val tt ->
  exists step',
    (execute_step run_process splitext_root (t, w)).2.1
    = Task.set_steps (<[Task.step_iterator t := step']> (Task.steps t)) t
    /\ Step.in_progress step' = true
    /\ Step.done step' = false
    /\ identity step' = identity step
    /\ (Task.exec_option t = "euler" -> is_Some (Step.job_id step'))
    /\ (Task.exec_option t <> "euler" -> Step.job_id step' = Step.job_id step).
Proof.
  intros Hstep Hdone Hpy Hprogress. apply String.eqb_neq in Hpy.
  unfold execute_step.
  rewrite bind_self, Hstep, bind_ret, Hdone, Hpy, log_file_name_resolved.
  destruct (step_log_file_name splitext_root step) as [log|]; [|done].
  cbn [not_none]. rewrite bind_ret, Hprogress. cbn [negb].
  rewrite (bind_io_val (os_path_exists log) _ t w w
             (bool_decide (is_Some (fs w !! log)))) by done.
  lazymatch goal with
  | |- context [ bind ?m ?k (t, w) ] =>
      destruct (bind_keeps_cases m k t w) as
        [(a1 & w1 & _ & ->)|(e & s1 & ->)]; [keeps_task_tac| |done]
  end.
  rewrite (bind_io_val (write_update _) _ t w1 _ tt eq_refl).
  lazymatch goal with
  | |- context [ bind ?m ?k (t, ?w2) ] =>
      destruct (bind_keeps_cases m k t w2) as
        [(job_id & w3 & Hjob & ->)|(e & s1 & ->)]; [keeps_task_tac| |done]
  end.
  intros _. erewrite (bind_val (set_current_step _)) by reflexivity.
  cbn [fst snd].
  destruct (String.eqb (Task.exec_option t) "euler") eqn:Heuler.
  - apply String.eqb_eq in Heuler.
    apply (cluster_dispatch_returns_identifier t step log _ _ job_id Heuler)
      in Hjob.
    exists (Step.set_job_id job_id (Step.set_in_progress true step)).
    split; [|by repeat split].
    unfold bind, io, write_update, modify, set_current_step, modify_self.
    cbn [fst snd]. unfold Task.set_steps.
    cbn [Task.steps Task.step_iterator Task.project_name Task.exec_option
         Task.ansys_exec_address Task.sub_folder Task.done
         Task.display_warning].
    f_equal.
    rewrite (alter_current_step (Step.set_in_progress true) (Task.steps t)
               _ step) by done.
    rewrite (alter_current_step _ _ _ (Step.set_in_progress true step)).
    + by rewrite list_insert_insert_eq.
    + apply list_lookup_insert_eq. by eapply lookup_lt_Some.
  - apply String.eqb_neq in Heuler.
    exists (Step.set_in_progress true step).
    split; [|by repeat split].
    unfold ret. cbn [fst snd]. f_equal.
    by rewrite (alter_current_step _ _ _ step).
Qed.

End Dispatch.

Lemma dispatch_marks_in_progress_witness :
  exists step',
    (execute_step bsub_process splitext_root_plain
       (cloud_task, empty_world)).2.1
    = Task.set_steps [step'] cloud_task
    /\ Step.in_progress step' = true.
Proof.
  destruct (dispatch_marks_in_progress bsub_process splitext_root_plain
              cloud_task empty_world
              (Step.set_job_id None (Step.set_in_progress false sweep_step)))
    as (step' & Hrun & Hprogress & _).
  - reflexivity.
  - reflexivity.
  - discriminate.
  - reflexivity.
  - reflexivity.
  - exists step'. split; [exact Hrun|exact Hprogress].
Defined.

(* ------------------------------------------------------------------ *)
(** ** The listing of the design variations *)

Lemma itertools_product_tuples {A} (pools : list (list A)) :
  Forall (fun tuple_sweep => length tuple_sweep = length pools)
         (itertools_product pools).
Proof.
  induction pools as [|pool pools IH]; cbn [itertools_product].
  - by repeat constructor.
  - apply Forall_concat. apply Forall_map. apply Forall_forall. intros x _.
    apply Forall_map. eapply Forall_impl; [exact IH|].
    intros tuple_sweep H. cbn. by rewrite H.
Qed.

Lemma itertools_product_length {A} (pools : list (list A)) :
  length (itertools_product pools)
  = foldr (fun pool n => length pool * n) 1 pools.
Proof.
  induction pools as [|pool pools IH]; [done|].
  cbn [itertools_product foldr]. rewrite <- IH. clear IH.
  induction pool as [|x pool IHpool]; [done|].
  cbn [map concat length]. rewrite length_app, length_map, IHpool. lia.
Qed.

Lemma itertools_product_empty_pool {A} (pools : list (list A)) :
  [] ∈ pools -> itertools_product pools = [].
Proof.
  induction pools as [|pool pools IH]; intros Hin.
  - by apply elem_of_nil in Hin.
  - cbn [itertools_product].
    apply elem_of_cons in Hin as [<-|Hin]; [done|].
    rewrite (IH Hin). by induction pool.
Qed.

Section VariationsProperties.

Context {value : Type}.
Variable str_ : value -> string.

Lemma project_name_loop_run
    (params : list (VariationParameters value))
    (pre mid post : list value) (name : string) (values : list value) :
  length mid = length params ->
  project_name_loop str_ params (length pre) (pre ++ mid ++ post) name values
  = Val (fold_left
           (fun name pv => name +:+ "_" +:+ var_name pv.1 +:+ "_" +:+ str_ pv.2)
           (zip params mid) name,
         values ++ mid).
Proof.
  revert pre mid name values.
  induction params as [|vp params IH]; intros pre mid name values Hlen.
  - destruct mid; [|done]. cbn. by rewrite app_nil_r.
  - destruct mid as [|v mid]; [done|]. cbn [project_name_loop].
    rewrite <- app_comm_cons, list_lookup_middle by done.
    replace (pre ++ v :: mid ++ post) with ((pre ++ [v]) ++ mid ++ post)
      by (by rewrite <- app_assoc).
    replace (S (length pre)) with (length (pre ++ [v]))
      by (rewrite length_app; cbn; lia).
    rewrite IH by (cbn in Hlen; lia).
    cbn [zip zip_with fold_left fst snd]. by rewrite <- app_assoc.
Qed.

Lemma project_list_loop_run
    (params : list (VariationParameters value)) (root : string)
    (tuples : list (list value))
    (names : list string) (values : list (list value)) :
  Forall (fun tuple_sweep => length tuple_sweep = length params) tuples ->
  project_list_loop str_ params root tuples names values
  = Val (names ++ map (variation_name str_ root params) tuples,
         values ++ tuples).
Proof.
  intros Htuples. revert names values.
  induction Htuples as [|tuple_sweep tuples Hlen _ IH]; intros names values.
  - cbn. by rewrite !app_nil_r.
  - cbn [project_list_loop].
    pose proof (project_name_loop_run params [] tuple_sweep [] root [] Hlen)
      as Hrun.
    rewrite app_nil_r in Hrun. cbn [length app] in Hrun. rewrite Hrun.
    rewrite IH. cbn [map]. by rewrite <- !app_assoc.
Qed.

Lemma get_project_list_run
    (params : list (VariationParameters value)) (root : string) :
  get_project_list str_ params root
  = Val (mkVariationParametersListing
           (map (variation_name str_ root params)
                (itertools_product (map sweep params)))
           (map var_name params)
           (itertools_product (map sweep params))).
Proof.
  unfold get_project_list. rewrite project_list_loop_run; [done|].
  eapply Forall_impl; [apply itertools_product_tuples|].
  intros tuple_sweep H. by rewrite H, length_map.
Qed.

(** The listing of the variations is always built: there is one project
    for each tuple of the product of the sweeps, first variable slowest,
    named after the root and the variables with their values in order;
    the number of projects is the product of the lengths of the sweeps. *)
Theorem get_project_list_spec
    (params : list (VariationParameters value)) (root : string) :
  exists listing,
    get_project_list str_ params root = Val listing
    /\ variation_values_list listing = itertools_product (map sweep params)
    /\ project_list listing
       = map (variation_name str_ root params) (variation_values_list listing)
    /\ variable_order_convention listing = map var_name params
    /\ length (project_list listing)
       = foldr (fun p n => length (sweep p) * n) 1 params.
Proof.
  eexists. split; [apply get_project_list_run|].
  cbn [variation_values_list project_list variable_order_convention].
  repeat split. rewrite length_map, itertools_product_length.
  induction params as [|p ps IH]; [done|]. cbn [map foldr]. by rewrite IH.
Qed.

(** One variable with nothing to sweep empties the whole listing. *)
Theorem get_project_list_empty_sweep
    (params : list (VariationParameters value)) (root : string)
    (p : VariationParameters value) :
  p ∈ params -> sweep p = [] ->
  exists listing,
    get_project_list str_ params root = Val listing
    /\ project_list listing = []
    /\ variation_values_list listing = [].
Proof.
  intros Hin Hsweep. eexists. split; [apply get_project_list_run|].
  cbn [variation_values_list project_list].
  rewrite itertools_product_empty_pool; [done|].
  rewrite <- Hsweep. apply list_elem_of_In, in_map, list_elem_of_In, Hin.
Qed.

(** [test_finish] never looks at the projects of the listing: it iterates
    over the dictionary that [get_project_list] returns, so that its answer
    is whether three regular files named after the keys of the dictionary
    exist, whatever the root and the sweeps are. *)
Theorem test_finish_checks_the_keys
    (root : string) (params : list (VariationParameters value))
    (file_extension : string) (w : World) :
  exists finish_bool,
    test_finish str_ root params file_extension w = (Val finish_bool, w)
    /\ (finish_bool = true <->
        forall key,
          key ∈ ["project_list"; "variable_order_convention";
                 "variation_values_list"] ->
          fs w !! (key +:+ file_extension) = Some Undecodable
          \/ exists content,
               fs w !! (key +:+ file_extension) = Some (File content)).
Proof.
  unfold test_finish, bind, of_result. rewrite get_project_list_run.
  cbn [fst snd listing_keys test_finish_loop].
  unfold bind, os_path_isfile, ret. cbn [fst snd negb].
  eexists. split; [reflexivity|].
  split.
  - intros H key Hkey.
    repeat (apply elem_of_cons in Hkey as [->|Hkey]);
      [| | |by apply elem_of_nil in Hkey];
      repeat lazymatch type of H with
             | context [ fs w !! ?k ] =>
                 destruct (fs w !! k) as [[?| |]|] eqn:?; cbn in H
             end; try discriminate; eauto.
  - intros H.
    destruct (H "project_list") as [->|[c1 ->]]; [by repeat constructor|..];
      (destruct (H "variable_order_convention") as [->|[c2 ->]];
       [by repeat constructor|..]);
      (destruct (H "variation_values_list") as [->|[c3 ->]];
       [by repeat constructor|..]);
      reflexivity.
Qed.

End VariationsProperties.

Lemma get_project_list_empty_sweep_witness :
  exists listing,
    get_project_list pretty gap_sweep_stalled "chip" = Val listing
    /\ project_list listing = []
    /\ variation_values_list listing = [].
Proof.
  apply (get_project_list_empty_sweep pretty gap_sweep_stalled "chip"
           (mkVariationParameters "width" [])).
  - by repeat constructor.
  - reflexivity.
Defined.

(* ------------------------------------------------------------------ *)
(** ** The submission to the cluster *)

Section Submission.

Variable run_process :
  string -> option string -> gmap string node -> gmap string node * string.

(** A submission without resources fails with a [TypeError] after the bash
    file has been opened for writing, which creates it or empties it, and
    before anything is started. *)
Theorem run_euler_job_without_resources
    (aedt_file_name : string)
    (name_bash_file script_name design_name setup_to_analyse job_log_name
       sub_folder : option string) (w : World) :
  let bash := default "temporary_bash_file.sh" name_bash_file in
  let run :=
    run_euler_job run_process aedt_file_name None name_bash_file script_name
      design_name setup_to_analyse job_log_name sub_folder w in
  ~ (is_Some script_name
     /\ (is_Some setup_to_analyse \/ is_Some design_name)) ->
  fs w !! bash <> Some Dir ->
  run.1 = Raise TypeError
  /\ trace run.2 = trace w ++ [OpenW bash]
  /\ status run.2 = status w
  /\ (exists content, fs run.2 !! bash = Some (File content))
  /\ (forall name, name <> bash -> fs run.2 !! name = fs w !! name).
Proof.
  intros bash run Hpayload Hbash. subst run. unfold run_euler_job.
  fold bash.
  assert (bool_decide (is_Some script_name)
          && (bool_decide (is_Some setup_to_analyse)
              || bool_decide (is_Some design_name)) = false) as ->.
  { apply not_true_is_false. intros H. apply Hpayload.
    apply andb_true_iff in H as [H1 H2]. apply bool_decide_eq_true in H1.
    split; [done|].
    apply orb_true_iff in H2 as [H2|H2]; apply bool_decide_eq_true in H2;
      eauto. }
  unfold bind, open_w, f_write, modify, with_fs, log_event. cbn beta.
  destruct (fs w !! bash) as [[c| |]|] eqn:Hlookup; [| |done|];
    cbn [fst snd not_none raise fs status trace];
    rewrite lookup_insert_eq;
    (repeat split;
     [ eexists; apply lookup_insert_eq
     | intros name Hname; by rewrite !lookup_insert_ne ]).
Qed.




End Submission.

Lemma run_euler_job_without_resources_witness :
  (run_euler_job idle_process "chip.aedt" None (Some "sweep.sh") None
     (Some "HFSSDesign1") (Some "Setup1") None None empty_world).1
  = Raise TypeError.
Proof.
  apply (run_euler_job_without_resources idle_process "chip.aedt"
           (Some "sweep.sh") None (Some "HFSSDesign1") (Some "Setup1")
           None None empty_world).
  - intros [[? [=]] _].
  - discriminate.
Defined.

